(** * Friendship requests and friend profiles

    A shallow embedding of the two tRPC routers of the repository:

    - [friendshipRequestRouter] (send / accept / decline), from
      [src/server/api/routers/friendship-request-router.ts];
    - [myFriendRouter] (getById) together with [userTotalFriendCount].

    The relational store is a pair of tables, each a list of rows in storage
    order.  Kysely's query builder is embedded as list combinators (filter for
    [where], a nested loop for [innerJoin], a map for [updateTable ... set]),
    and a procedure is a function from the store to a result and a store.

    The session, [authGuard] and the parsing of a procedure's input belong to
    the framework: a procedure here takes the id of the authenticated caller
    ([ctx.session.userId]) and the [friendUserId] of its parsed input. *)

From Stdlib Require Import ZArith Lia.
From stdpp Require Import base list gmap strings.

Local Open Scope Z_scope.

(** ** Data model *)

Inductive FriendshipStatus := requested | accepted | declined.

#[global] Instance FriendshipStatus_eq_dec : EqDecision FriendshipStatus.
Proof. solve_decision. Defined.

(** The [users] table. *)
Module Users.
Record row := mk { id : Z; fullName : string; phoneNumber : string }.
End Users.

(** The [friendships] table: one row is one directed edge. *)
Module Friendships.
Record row := mk { id : Z; userId : Z; friendUserId : Z; status : FriendshipStatus }.

#[global] Instance row_eq_dec : EqDecision row.
Proof. solve_decision. Defined.

Definition set_status (s : FriendshipStatus) (r : row) : row :=
  mk (id r) (userId r) (friendUserId r) s.

(** The ordered pair an edge connects. *)
Definition pair_of (r : row) : Z * Z := (userId r, friendUserId r).
End Friendships.

Record Database := mkDatabase {
  users : list Users.row;
  friendships : list Friendships.row
}.

(** ** Errors and procedures *)

Inductive TRPC_ERROR_CODE := BAD_REQUEST | NOT_FOUND.

Inductive Error :=
| TRPCError (code : TRPC_ERROR_CODE)
| ZodError.

(** A procedure reads and writes the store and either throws or returns. *)
Definition Proc (A : Type) : Type := Database → (Error + A) * Database.

#[global] Instance Proc_ret : MRet Proc := λ A a db, (inr a, db).

#[global] Instance Proc_bind : MBind Proc := λ A B k m db,
  match m db with
  | (inl e, db') => (inl e, db')
  | (inr a, db') => k a db'
  end.

Definition throw {A} (e : Error) : Proc A := λ db, (inl e, db).

(** A [selectFrom ...] statement: reads, never writes. *)
Definition query {A} (q : Database → A) : Proc A := λ db, (inr (q db), db).

(** An [updateTable] / [insertInto] statement on [friendships]. *)
Definition execute (f : list Friendships.row → list Friendships.row) : Proc unit :=
  λ db, (inr tt, mkDatabase (users db) (f (friendships db))).

(** [executeTakeFirst]. *)
Definition executeTakeFirst {A} (rows : list A) : option A := head rows.

(** [executeTakeFirstOrThrow(() => e)]. *)
Definition executeTakeFirstOrThrow {A} (rows : list A) (e : Error) : Proc A :=
  match rows with
  | [] => throw e
  | r :: _ => mret r
  end.

(** [db.transaction().execute(body)]: a body that throws is rolled back. *)
Definition transaction {A} (body : Proc A) : Proc A := λ db,
  match body db with
  | (inl e, _) => (inl e, db)
  | (inr a, db') => (inr a, db')
  end.

(** ** Query-builder combinators *)

Section Relational.
Context {R S : Type}.

(** [l.innerJoin(r, on)], as a nested loop over [l] then [r]. *)
Definition innerJoin (on : R * S → Prop) `{∀ p, Decision (on p)}
    (l : list R) (r : list S) : list (R * S) :=
  a ← l; filter on (pair a <$> r).

(** [groupBy(key)]: one group per distinct key, in order of first
    appearance, holding the rows of that key. *)
Definition groupBy {K} `{EqDecision K} (key : R → K) (rows : list R)
    : list (K * list R) :=
  (λ k, (k, filter (λ r, key r = k) rows)) <$> remove_dups (key <$> rows).

(** [updateTable(...).set(...).where(P)]. *)
Definition update_where (P : R → Prop) `{∀ r, Decision (P r)}
    (set : R → R) (tbl : list R) : list R :=
  (λ r, if decide (P r) then set r else r) <$> tbl.
End Relational.

(** [eb.fn.count(col)] over a group, for a column that is never null. *)
Definition count {R} (group : list R) : Z := Z.of_nat (length group).

(** Modelled from the spec: the declaration of the [friendships] table is not
    among the sources; an edge is a record [(id, userId, friendUserId, status)]
    whose [id] the store generates on insert.  The generated id is one more
    than the largest id in the table. *)
Definition next_id (tbl : list Friendships.row) : Z :=
  foldr Z.max 0 (Friendships.id <$> tbl) + 1.

(** [insertInto('friendships').values({ userId, friendUserId, status })]. *)
Definition insert_values (userId friendUserId : Z) (status : FriendshipStatus)
    (tbl : list Friendships.row) : list Friendships.row :=
  tbl ++ [Friendships.mk (next_id tbl) userId friendUserId status].

(** ** Friendship request router *)

Record SuccessFlag := { success : bool }.

(** The rows of the ordered pair [(userId, friendUserId)]. *)
Definition is_edge (userId friendUserId : Z) (r : Friendships.row) : Prop :=
  Friendships.userId r = userId ∧ Friendships.friendUserId r = friendUserId.

#[global] Instance is_edge_dec u f r : Decision (is_edge u f r).
Proof. unfold is_edge. apply _. Defined.

(** Guard of [send]: the target user must exist. *)
Definition canSendFriendshipRequest (friendUserId : Z) : Proc unit :=
  rows ← query (λ db,
    take 1 (Users.id <$> filter (λ u, Users.id u = friendUserId) (users db)));
  _ ← executeTakeFirstOrThrow rows (TRPCError BAD_REQUEST);
  mret tt.

(** Guard of [accept] and [decline]: a [requested] edge from [friendUserId]
    to the caller must exist. *)
Definition canAnswerFriendshipRequest (sessionUserId friendUserId : Z) : Proc unit :=
  rows ← query (λ db,
    take 1 (Friendships.id <$>
      filter (λ r, Friendships.userId r = friendUserId
                   ∧ Friendships.friendUserId r = sessionUserId
                   ∧ Friendships.status r = requested) (friendships db)));
  _ ← executeTakeFirstOrThrow rows (TRPCError BAD_REQUEST);
  mret tt.

(** The mutation of [send], after its guard. *)
Definition send_body (sessionUserId friendUserId_input : Z) : Proc SuccessFlag :=
  let userId := sessionUserId in
  let friendUserId := friendUserId_input in
  existingRequest ← query (λ db, executeTakeFirst
    (Friendships.id <$> filter (is_edge userId friendUserId) (friendships db)));
  _ ← match existingRequest with
      | Some _ =>
          execute (update_where (is_edge userId friendUserId)
                     (Friendships.set_status requested))
      | None =>
          execute (insert_values userId friendUserId requested)
      end;
  mret {| success := true |}.

Definition send (sessionUserId friendUserId : Z) : Proc SuccessFlag :=
  _ ← canSendFriendshipRequest friendUserId;
  send_body sessionUserId friendUserId.

(** The lookup in the middle of [accept]'s transaction: the row whose
    [userId] is the input's [friendUserId] and whose [friendUserId] is the
    caller. *)
Definition accept_lookup (sessionUserId friendUserId_input : Z) : Proc (option Z) :=
  let userId := sessionUserId in
  let friendUserId := friendUserId_input in
  query (λ db, executeTakeFirst
    (Friendships.id <$> filter (is_edge friendUserId userId) (friendships db))).

(** The first statement of [accept]'s transaction: the update of the row
    whose [userId] is the caller and whose [friendUserId] is the input's. *)
Definition accept_update (sessionUserId friendUserId_input : Z) : Proc unit :=
  let userId := sessionUserId in
  let friendUserId := friendUserId_input in
  execute (update_where (is_edge userId friendUserId)
             (Friendships.set_status accepted)).

(** The transaction of [accept], after its guard. *)
Definition accept_body (sessionUserId friendUserId_input : Z) : Proc unit :=
  let userId := sessionUserId in
  let friendUserId := friendUserId_input in
  _ ← accept_update sessionUserId friendUserId_input;
  existingFriendship ← accept_lookup sessionUserId friendUserId_input;
  match existingFriendship with
  | Some existing_id =>
      execute (update_where (λ r, Friendships.id r = existing_id)
                 (Friendships.set_status accepted))
  | None =>
      execute (insert_values friendUserId userId accepted)
  end.

Definition accept (sessionUserId friendUserId : Z) : Proc unit :=
  _ ← canAnswerFriendshipRequest sessionUserId friendUserId;
  transaction (accept_body sessionUserId friendUserId).

(** The mutation of [decline], after its guard. *)
Definition decline_body (sessionUserId friendUserId_input : Z) : Proc SuccessFlag :=
  let userId := sessionUserId in
  let friendUserId := friendUserId_input in
  _ ← execute (update_where (is_edge friendUserId userId)
                 (Friendships.set_status declined));
  mret {| success := true |}.

Definition decline (sessionUserId friendUserId : Z) : Proc SuccessFlag :=
  _ ← canAnswerFriendshipRequest sessionUserId friendUserId;
  decline_body sessionUserId friendUserId.

(** ** Friend profile router *)

(** A value of a column of a result row, as the driver hands it to
    JavaScript; SQL [NULL] arrives as [null]. *)
Inductive JsValue :=
| JsNumber (n : Z)
| JsString (s : string)
| JsNull.

(** A result row is a JavaScript object: a finite map from column names to
    values.  A key that is not in the map reads as [undefined]. *)
Abbreviation JsObject := (gmap string JsValue).

(** Modelled from the spec: [IdSchema], [NonEmptyStringSchema] and
    [CountSchema] come from [utils/server/base-schemas], which is not among
    the sources.  Every field of the result is required: an identifier is a
    number, a name is a non-empty string, and a count is a number that is
    not negative.  A schema maps the value of a property ([None] when the
    property is absent) to the parsed value, or to [None] when it rejects. *)
Definition IdSchema (v : option JsValue) : option Z :=
  match v with
  | Some (JsNumber n) => Some n
  | _ => None
  end.

Definition NonEmptyStringSchema (v : option JsValue) : option string :=
  match v with
  | Some (JsString s) => if decide (s = "") then None else Some s
  | _ => None
  end.

Definition CountSchema (v : option JsValue) : option Z :=
  match v with
  | Some (JsNumber n) => if decide (0 ≤ n) then Some n else None
  | _ => None
  end.

(** The object [getById] returns once the schema has accepted the row. *)
Module FriendInfo.
Record t := mk {
  id : Z;
  fullName : string;
  phoneNumber : string;
  totalFriendCount : Z;
  mutualFriendCount : Z
}.
End FriendInfo.

(** [z.object({ id, fullName, phoneNumber, totalFriendCount,
    mutualFriendCount }).parse]. *)
Definition FriendInfoSchema_parse (o : JsObject) : Proc FriendInfo.t :=
  match
    id ← IdSchema (o !! "id");
    fullName ← NonEmptyStringSchema (o !! "fullName");
    phoneNumber ← NonEmptyStringSchema (o !! "phoneNumber");
    totalFriendCount ← CountSchema (o !! "totalFriendCount");
    mutualFriendCount ← CountSchema (o !! "mutualFriendCount");
    Some (FriendInfo.mk id fullName phoneNumber totalFriendCount mutualFriendCount)
  with
  | Some r => mret r
  | None => throw ZodError
  end.

(** The rows the self-join of [mutualFriendCountSubquery] keeps: pairs
    [(f1, f2)] of accepted edges with the same [friendUserId], [f1] leaving
    [userId] and [f2] leaving [friendUserId]. *)
Definition mutualFriendRows (tbl : list Friendships.row) (userId friendUserId : Z)
    : list (Friendships.row * Friendships.row) :=
  filter (λ p, Friendships.userId p.1 = userId
               ∧ Friendships.userId p.2 = friendUserId
               ∧ Friendships.status p.1 = accepted
               ∧ Friendships.status p.2 = accepted)
    (innerJoin (λ p, Friendships.friendUserId p.1 = Friendships.friendUserId p.2)
       tbl tbl).

(** [mutualFriendCountSubquery]: the column [mutualFriendCount] of each group
    of the self-join, grouped by [f1.userId]. *)
Definition mutualFriendCountSubquery (tbl : list Friendships.row)
    (userId friendUserId : Z) : list Z :=
  (λ g, count g.2) <$>
    groupBy (λ p, Friendships.userId p.1) (mutualFriendRows tbl userId friendUserId).

(** A subquery in a select list is a scalar: its first row, or [NULL] when it
    has no row. *)
Definition scalar_subquery (rows : list Z) : JsValue :=
  match rows with
  | [] => JsNull
  | n :: _ => JsNumber n
  end.

(** The main query of [getById]: the rows it yields, as JavaScript objects
    with exactly the selected columns. *)
Definition getById_rows (db : Database) (userId friendUserId : Z) : list JsObject :=
  (λ p : Users.row * Friendships.row,
     let friends := p.1 in
     ({[ "id" := JsNumber (Users.id friends);
         "fullName" := JsString (Users.fullName friends);
         "phoneNumber" := JsString (Users.phoneNumber friends);
         "mutualFriendCount" :=
           scalar_subquery
             (mutualFriendCountSubquery (friendships db) userId friendUserId) ]}
      : JsObject)) <$>
    filter (λ p : Users.row * Friendships.row,
              Friendships.userId p.2 = userId
              ∧ Friendships.friendUserId p.2 = friendUserId
              ∧ Friendships.status p.2 = accepted)
      (innerJoin (λ p : Users.row * Friendships.row,
                    Friendships.friendUserId p.2 = Users.id p.1)
         (users db) (friendships db)).

Definition getById (sessionUserId friendUserId_input : Z) : Proc FriendInfo.t :=
  let userId := sessionUserId in
  let friendUserId := friendUserId_input in
  rows ← query (λ db, getById_rows db userId friendUserId);
  result ← executeTakeFirstOrThrow rows (TRPCError NOT_FOUND);
  FriendInfoSchema_parse result.

(** [userTotalFriendCount]: per user, the number of accepted edges leaving
    that user.  Rows are [(userId, totalFriendCount)]. *)
Definition userTotalFriendCount (db : Database) : list (Z * Z) :=
  (λ g, (g.1, count g.2)) <$>
    groupBy Friendships.userId
      (filter (λ r, Friendships.status r = accepted) (friendships db)).

(** ** Properties of a store *)

(** At most one edge per ordered pair [(userId, friendUserId)]. *)
Definition unique_pairs (tbl : list Friendships.row) : Prop :=
  NoDup (Friendships.pair_of <$> tbl).

(** What identifies a row and what it connects: everything but its status. *)
Definition row_key (r : Friendships.row) : Z * Z * Z :=
  (Friendships.id r, Friendships.userId r, Friendships.friendUserId r).

(** An edge [(userId, friendUserId)] with the given status is in the table. *)
Definition has_edge (tbl : list Friendships.row) (userId friendUserId : Z)
    (s : FriendshipStatus) : Prop :=
  ∃ r, r ∈ tbl ∧ is_edge userId friendUserId r ∧ Friendships.status r = s.

(** A user with the given id is in the [users] table. *)
Definition user_exists (db : Database) (userId : Z) : Prop :=
  ∃ u, u ∈ users db ∧ Users.id u = userId.

(** The accepted edges leaving a user. *)
Definition accepted_of (userId : Z) (r : Friendships.row) : Prop :=
  Friendships.userId r = userId ∧ Friendships.status r = accepted.

#[global] Instance accepted_of_dec u r : Decision (accepted_of u r).
Proof. unfold accepted_of. apply _. Defined.

(** Where the accepted edges leaving a user lead, edge by edge. *)
Definition accepted_friend_ids (tbl : list Friendships.row) (userId : Z) : list Z :=
  Friendships.friendUserId <$> filter (accepted_of userId) tbl.

(** The set of users [F] such that the edge [(userId, F, accepted)] exists. *)
Definition accepted_friends (tbl : list Friendships.row) (userId : Z) : gset Z :=
  list_to_set (accepted_friend_ids tbl userId).

(** The mutual friend count as the specification words it: the number of
    distinct [F] such that both [(A, F, accepted)] and [(B, F, accepted)]
    exist. *)
Definition mutual_friend_count_spec (tbl : list Friendships.row) (A B : Z) : Z :=
  Z.of_nat (size (accepted_friends tbl A ∩ accepted_friends tbl B)).

(** The total friend count as the specification words it: the number of
    edges with [userId = X] and status [accepted]. *)
Definition total_friend_count_spec (tbl : list Friendships.row) (X : Z) : Z :=
  count (filter (accepted_of X) tbl).

(** ** Scenarios *)

Definition alice : Users.row := Users.mk 1 "Alice" "0901".
Definition bob : Users.row := Users.mk 2 "Bob" "0902".

(** Two users and no edge yet. *)
Definition db_fresh : Database := mkDatabase [alice; bob] [].

(** Alice and Bob are accepted friends of each other and share no friend;
    Bob also has an accepted edge to user 3. *)
Definition db_friends : Database := mkDatabase
  [alice; bob; Users.mk 3 "Carol" "0903"]
  [Friendships.mk 1 1 2 accepted; Friendships.mk 2 2 1 accepted;
   Friendships.mk 3 2 3 accepted; Friendships.mk 4 3 2 accepted].

(** A (1) is friends with X, Y, Z (3, 4, 5); B (2) with Y, Z, W (4, 5, 6);
    A and B with each other. *)
Definition db_mutual : Database := mkDatabase
  [alice; bob; Users.mk 3 "X" "0903"; Users.mk 4 "Y" "0904";
   Users.mk 5 "Z" "0905"; Users.mk 6 "W" "0906"]
  [Friendships.mk 1 1 3 accepted; Friendships.mk 2 3 1 accepted;
   Friendships.mk 3 1 4 accepted; Friendships.mk 4 4 1 accepted;
   Friendships.mk 5 1 5 accepted; Friendships.mk 6 5 1 accepted;
   Friendships.mk 7 2 4 accepted; Friendships.mk 8 4 2 accepted;
   Friendships.mk 9 2 5 accepted; Friendships.mk 10 5 2 accepted;
   Friendships.mk 11 2 6 accepted; Friendships.mk 12 6 2 accepted;
   Friendships.mk 13 1 2 accepted; Friendships.mk 14 2 1 accepted].

(** Alice has asked Bob, and Bob had asked Alice and was declined. *)
Definition db_pending : Database := mkDatabase
  [alice; bob]
  [Friendships.mk 1 2 1 declined; Friendships.mk 2 1 2 requested].

(** Alice has asked Bob and nobody else has asked anybody. *)
Definition db_requested : Database := mkDatabase
  [alice; bob] [Friendships.mk 1 1 2 requested].

(** ** Stores over time *)

(** No two rows of the table carry the same id. *)
Definition unique_ids (tbl : list Friendships.row) : Prop :=
  NoDup (Friendships.id <$> tbl).

(** The second table has the rows of the first, in their places and with
    their ids and pairs, followed by at most one more row. *)
Definition extends_rows (tbl tbl' : list Friendships.row) : Prop :=
  ∃ added, row_key <$> tbl' = (row_key <$> tbl) ++ added ∧ (length added ≤ 1)%nat.

(** A call of one of the three mutations of [friendshipRequestRouter], by
    the session user, with the input's [friendUserId]. *)
Inductive Call :=
| Send (sessionUserId friendUserId : Z)
| Accept (sessionUserId friendUserId : Z)
| Decline (sessionUserId friendUserId : Z).

(** The store a call leaves, whether it returns or throws. *)
Definition run_call (db : Database) (c : Call) : Database :=
  match c with
  | Send u f => (send u f db).2
  | Accept u f => (accept u f db).2
  | Decline u f => (decline u f db).2
  end.

(** The store a sequence of calls leaves, one after the other. *)
Definition run_calls (db : Database) (cs : list Call) : Database :=
  foldl run_call db cs.

(** * Verification *)

(** A closed, decidable fact, settled by evaluation. *)
Ltac by_evaluation := apply (bool_decide_unpack _); vm_compute; reflexivity.

(** ** Updates of the status column *)

Section StatusUpdates.
Context (P : Friendships.row → Prop) `{∀ r, Decision (P r)}.
Context (s : FriendshipStatus).

Lemma update_where_lookup (tbl : list Friendships.row) i r :
  tbl !! i = Some r →
  update_where P (Friendships.set_status s) tbl !! i
  = Some (if decide (P r) then Friendships.set_status s r else r).
Proof. intros Hi. unfold update_where. by rewrite list_lookup_fmap, Hi. Qed.

Lemma update_where_length (tbl : list Friendships.row) :
  length (update_where P (Friendships.set_status s) tbl) = length tbl.
Proof. unfold update_where. by rewrite length_fmap. Qed.

Lemma update_where_keys (tbl : list Friendships.row) :
  row_key <$> update_where P (Friendships.set_status s) tbl = row_key <$> tbl.
Proof.
  unfold update_where. rewrite <- list_fmap_compose.
  apply list_fmap_ext. intros i r _. simpl. by case_decide.
Qed.

Lemma update_where_pairs (tbl : list Friendships.row) :
  Friendships.pair_of <$> update_where P (Friendships.set_status s) tbl
  = Friendships.pair_of <$> tbl.
Proof.
  unfold update_where. rewrite <- list_fmap_compose.
  apply list_fmap_ext. intros i r _. simpl. by case_decide.
Qed.

Lemma update_where_unique_pairs (tbl : list Friendships.row) :
  unique_pairs tbl → unique_pairs (update_where P (Friendships.set_status s) tbl).
Proof. unfold unique_pairs. by rewrite update_where_pairs. Qed.

(** The rows of an ordered pair, after an update of statuses, are the
    updated rows of that pair. *)
Lemma filter_edge_update_where a b (tbl : list Friendships.row) :
  filter (is_edge a b) (update_where P (Friendships.set_status s) tbl)
  = update_where P (Friendships.set_status s) (filter (is_edge a b) tbl).
Proof.
  induction tbl as [|r tbl IH]; [done|].
  unfold update_where in *. rewrite fmap_cons, !filter_cons.
  assert (is_edge a b (if decide (P r) then Friendships.set_status s r else r)
          ↔ is_edge a b r) as Hiff by (by case_decide).
  repeat case_decide; try tauto; rewrite ?fmap_cons, IH; try done.
  all: by repeat case_decide.
Qed.
End StatusUpdates.

Lemma is_edge_pair_of a b r : is_edge a b r ↔ Friendships.pair_of r = (a, b).
Proof.
  unfold is_edge, Friendships.pair_of. split; [by intros [-> ->]|].
  by intros [= -> ->].
Qed.

(** Under the invariant the rows of one ordered pair are at most one. *)
Lemma unique_pairs_filter_edge a b (tbl : list Friendships.row) :
  unique_pairs tbl → (length (filter (is_edge a b) tbl) ≤ 1)%nat.
Proof.
  unfold unique_pairs. induction tbl as [|r tbl IH]; simpl; [lia|].
  rewrite NoDup_cons. intros [Hr Hnd]. rewrite filter_cons.
  case_decide as He; [|by apply IH]. simpl.
  destruct (filter (is_edge a b) tbl) as [|r' l] eqn:Hf; simpl; [lia|].
  exfalso. apply Hr.
  assert (r' ∈ filter (is_edge a b) tbl) as Hin by (rewrite Hf; left).
  apply list_elem_of_filter in Hin as [He' Hin].
  apply is_edge_pair_of in He, He'. rewrite He, <- He'.
  by apply list_elem_of_fmap_2.
Qed.

(** An insert of a pair that has no row keeps the invariant. *)
Lemma insert_values_unique_pairs a b s (tbl : list Friendships.row) :
  filter (is_edge a b) tbl = [] →
  unique_pairs tbl → unique_pairs (insert_values a b s tbl).
Proof.
  unfold unique_pairs, insert_values. intros Hnone Hnd.
  rewrite fmap_app. apply NoDup_app. split; [done|]. split.
  - intros p Hp Hp'. apply list_elem_of_singleton in Hp'. subst p.
    apply list_elem_of_fmap in Hp as (r & Hr & Hin).
    eapply (filter_nil_not_elem_of _ _ r); [exact Hnone| |done].
    apply is_edge_pair_of. by rewrite <- Hr.
  - apply NoDup_singleton.
Qed.

(** ** The guards *)

Lemma canSendFriendshipRequest_ok db target :
  user_exists db target → canSendFriendshipRequest target db = (inr tt, db).
Proof.
  intros (u & Hu & Hid). unfold canSendFriendshipRequest, mbind, Proc_bind, query.
  destruct (filter (λ u, Users.id u = target) (users db)) as [|u' l] eqn:Hf; [|done].
  exfalso. by eapply (filter_nil_not_elem_of _ _ u); [exact Hf| |].
Qed.

Lemma canSendFriendshipRequest_fail db target :
  ¬ user_exists db target →
  canSendFriendshipRequest target db = (inl (TRPCError BAD_REQUEST), db).
Proof.
  intros Hno. unfold canSendFriendshipRequest, mbind, Proc_bind, query.
  destruct (filter (λ u, Users.id u = target) (users db)) as [|u' l] eqn:Hf; [done|].
  exfalso. apply Hno. exists u'.
  assert (u' ∈ filter (λ u, Users.id u = target) (users db)) as Hin
    by (rewrite Hf; left).
  apply list_elem_of_filter in Hin. tauto.
Qed.

Lemma canAnswerFriendshipRequest_ok db caller requester :
  has_edge (friendships db) requester caller requested →
  canAnswerFriendshipRequest caller requester db = (inr tt, db).
Proof.
  intros (r & Hr & [Hu Hf] & Hs).
  unfold canAnswerFriendshipRequest, mbind, Proc_bind, query.
  match goal with |- context [filter ?Q (friendships db)] =>
    destruct (filter Q (friendships db)) as [|r' l] eqn:Hfil end; [|done].
  exfalso. by eapply (filter_nil_not_elem_of _ _ r); [exact Hfil| |].
Qed.

Lemma canAnswerFriendshipRequest_fail db caller requester :
  ¬ has_edge (friendships db) requester caller requested →
  canAnswerFriendshipRequest caller requester db
  = (inl (TRPCError BAD_REQUEST), db).
Proof.
  intros Hno. unfold canAnswerFriendshipRequest, mbind, Proc_bind, query.
  match goal with |- context [filter ?Q (friendships db)] =>
    destruct (filter Q (friendships db)) as [|r' l] eqn:Hfil end; [done|].
  exfalso. apply Hno. exists r'.
  match type of Hfil with filter ?Q _ = _ =>
    assert (r' ∈ filter Q (friendships db)) as Hin by (rewrite Hfil; left) end.
  apply list_elem_of_filter in Hin. unfold is_edge. tauto.
Qed.

Lemma canSendFriendshipRequest_cases db target :
  canSendFriendshipRequest target db = (inr tt, db)
  ∨ canSendFriendshipRequest target db = (inl (TRPCError BAD_REQUEST), db).
Proof.
  unfold canSendFriendshipRequest, mbind, Proc_bind, query.
  destruct (filter _ (users db)); simpl; auto.
Qed.

Lemma canAnswerFriendshipRequest_cases db caller requester :
  canAnswerFriendshipRequest caller requester db = (inr tt, db)
  ∨ canAnswerFriendshipRequest caller requester db
    = (inl (TRPCError BAD_REQUEST), db).
Proof.
  unfold canAnswerFriendshipRequest, mbind, Proc_bind, query.
  destruct (filter _ (friendships db)); simpl; auto.
Qed.

(** ** The mutations, statement by statement *)

Lemma send_body_eq db caller target :
  send_body caller target db
  = (inr {| success := true |},
     mkDatabase (users db)
       (match filter (is_edge caller target) (friendships db) with
        | [] => insert_values caller target requested (friendships db)
        | _ :: _ =>
            update_where (is_edge caller target)
              (Friendships.set_status requested) (friendships db)
        end)).
Proof.
  unfold send_body, mbind, Proc_bind, query, executeTakeFirst, execute.
  by destruct (filter _ (friendships db)).
Qed.

Lemma accept_update_eq db caller requester :
  accept_update caller requester db
  = (inr tt,
     mkDatabase (users db)
       (update_where (is_edge caller requester)
          (Friendships.set_status accepted) (friendships db))).
Proof. done. Qed.

Lemma accept_body_eq db caller requester :
  let tbl1 := update_where (is_edge caller requester)
                (Friendships.set_status accepted) (friendships db) in
  accept_body caller requester db
  = (inr tt,
     mkDatabase (users db)
       (match filter (is_edge requester caller) tbl1 with
        | [] => insert_values requester caller accepted tbl1
        | existing :: _ =>
            update_where (λ r, Friendships.id r = Friendships.id existing)
              (Friendships.set_status accepted) tbl1
        end)).
Proof.
  unfold accept_body, accept_update, accept_lookup.
  unfold mbind, Proc_bind, query, executeTakeFirst, execute. simpl.
  by destruct (filter _ _).
Qed.

Lemma transaction_accept_body db caller requester :
  transaction (accept_body caller requester) db
  = accept_body caller requester db.
Proof. unfold transaction. by rewrite accept_body_eq. Qed.

Lemma decline_body_eq db caller requester :
  decline_body caller requester db
  = (inr {| success := true |},
     mkDatabase (users db)
       (update_where (is_edge requester caller)
          (Friendships.set_status declined) (friendships db))).
Proof. done. Qed.

Lemma send_guarded db caller target :
  canSendFriendshipRequest target db = (inr tt, db) →
  send caller target db = send_body caller target db.
Proof. intros Hg. unfold send, mbind, Proc_bind. by rewrite Hg. Qed.

Lemma accept_guarded db caller requester :
  canAnswerFriendshipRequest caller requester db = (inr tt, db) →
  accept caller requester db = accept_body caller requester db.
Proof.
  intros Hg. unfold accept, mbind, Proc_bind. rewrite Hg.
  apply transaction_accept_body.
Qed.

Lemma decline_guarded db caller requester :
  canAnswerFriendshipRequest caller requester db = (inr tt, db) →
  decline caller requester db = decline_body caller requester db.
Proof. intros Hg. unfold decline, mbind, Proc_bind. by rewrite Hg. Qed.

(** A guard that rejects leaves the store as it was. *)
Lemma send_rejected db caller target e :
  canSendFriendshipRequest target db = (inl e, db) →
  send caller target db = (inl e, db).
Proof. intros Hg. unfold send, mbind, Proc_bind. by rewrite Hg. Qed.

Lemma accept_rejected db caller requester e :
  canAnswerFriendshipRequest caller requester db = (inl e, db) →
  accept caller requester db = (inl e, db).
Proof. intros Hg. unfold accept, mbind, Proc_bind. by rewrite Hg. Qed.

Lemma decline_rejected db caller requester e :
  canAnswerFriendshipRequest caller requester db = (inl e, db) →
  decline caller requester db = (inl e, db).
Proof. intros Hg. unfold decline, mbind, Proc_bind. by rewrite Hg. Qed.

(** ** The one-edge-per-ordered-pair invariant *)

Lemma send_body_unique_pairs db caller target :
  unique_pairs (friendships db) →
  unique_pairs (friendships (send_body caller target db).2).
Proof.
  intros Hu. rewrite send_body_eq. simpl.
  destruct (filter _ (friendships db)) eqn:Hf.
  - by apply insert_values_unique_pairs.
  - by apply update_where_unique_pairs.
Qed.

Lemma accept_body_unique_pairs db caller requester :
  unique_pairs (friendships db) →
  unique_pairs (friendships (accept_body caller requester db).2).
Proof.
  intros Hu. rewrite accept_body_eq. simpl.
  destruct (filter _ _) eqn:Hf.
  - apply insert_values_unique_pairs; [done|]. by apply update_where_unique_pairs.
  - by do 2 apply update_where_unique_pairs.
Qed.

Lemma decline_body_unique_pairs db caller requester :
  unique_pairs (friendships db) →
  unique_pairs (friendships (decline_body caller requester db).2).
Proof. intros Hu. rewrite decline_body_eq. by apply update_where_unique_pairs. Qed.

(** C6: in a store with at most one edge per ordered pair, each of [send],
    [accept] and [decline] leaves at most one edge per ordered pair, whether
    its guard lets the call through or rejects it. *)
Theorem operations_preserve_unique_pairs db caller other :
  unique_pairs (friendships db) →
  unique_pairs (friendships (send caller other db).2)
  ∧ unique_pairs (friendships (accept caller other db).2)
  ∧ unique_pairs (friendships (decline caller other db).2).
Proof.
  intros Hu. split; [|split].
  - destruct (canSendFriendshipRequest_cases db other) as [Hg|Hg].
    + rewrite (send_guarded _ _ _ Hg). by apply send_body_unique_pairs.
    + by rewrite (send_rejected _ _ _ _ Hg).
  - destruct (canAnswerFriendshipRequest_cases db caller other) as [Hg|Hg].
    + rewrite (accept_guarded _ _ _ Hg). by apply accept_body_unique_pairs.
    + by rewrite (accept_rejected _ _ _ _ Hg).
  - destruct (canAnswerFriendshipRequest_cases db caller other) as [Hg|Hg].
    + rewrite (decline_guarded _ _ _ Hg). by apply decline_body_unique_pairs.
    + by rewrite (decline_rejected _ _ _ _ Hg).
Qed.

Lemma operations_preserve_unique_pairs_witness :
  unique_pairs (friendships db_pending)
  ∧ unique_pairs (friendships (send 2 1 db_pending).2)
  ∧ unique_pairs (friendships (accept 2 1 db_pending).2)
  ∧ unique_pairs (friendships (decline 2 1 db_pending).2).
Proof.
  assert (unique_pairs (friendships db_pending)) as Hu.
  { unfold unique_pairs. by_evaluation. }
  split; [exact Hu|]. exact (operations_preserve_unique_pairs db_pending 2 1 Hu).
Defined.

(** ** send *)

(** C7: a [send] whose target is no user fails with a bad-request error, and
    the store it leaves is the store it found. *)
Theorem send_unknown_target_rejected db caller target :
  ¬ user_exists db target →
  send caller target db = (inl (TRPCError BAD_REQUEST), db).
Proof.
  intros Hno. apply send_rejected. by apply canSendFriendshipRequest_fail.
Qed.

Lemma send_unknown_target_rejected_witness :
  ¬ user_exists db_pending 7
  ∧ send 1 7 db_pending = (inl (TRPCError BAD_REQUEST), db_pending).
Proof.
  assert (¬ user_exists db_pending 7) as Hno.
  { intros (u & Hu & Hid). simpl in Hu.
    rewrite !elem_of_cons in Hu. destruct Hu as [->| [->|Hu]]; [done..|].
    by apply elem_of_nil in Hu. }
  split; [exact Hno|]. exact (send_unknown_target_rejected db_pending 1 7 Hno).
Defined.

(** What a [send] to an existing user does, whichever branch it takes. *)
Lemma send_spec db caller target :
  user_exists db target →
  unique_pairs (friendships db) →
  ∃ db',
    send caller target db = (inr {| success := true |}, db')
    ∧ users db' = users db
    ∧ unique_pairs (friendships db')
    ∧ (∃ r, filter (is_edge caller target) (friendships db') = [r]
            ∧ Friendships.status r = requested)
    ∧ (filter (is_edge caller target) (friendships db) ≠ [] →
       friendships db'
       = update_where (is_edge caller target)
           (Friendships.set_status requested) (friendships db)).
Proof.
  intros Hex Hu.
  rewrite (send_guarded _ _ _ (canSendFriendshipRequest_ok _ _ Hex)).
  pose proof (send_body_unique_pairs db caller target Hu) as Hu'.
  rewrite send_body_eq in *. simpl in Hu'.
  eexists. split; [done|]. simpl. split; [done|]. split; [done|].
  pose proof (unique_pairs_filter_edge caller target _ Hu) as Hlen.
  destruct (filter (is_edge caller target) (friendships db))
    as [|r0 [|r1 l]] eqn:Hf; simpl in Hlen; [| |lia].
  - split; [|done]. unfold insert_values. rewrite filter_app, Hf. simpl.
    rewrite filter_cons_True by done. by eexists.
  - split; [|done]. rewrite filter_edge_update_where, Hf.
    assert (is_edge caller target r0) as He.
    { assert (r0 ∈ filter (is_edge caller target) (friendships db)) as Hin
        by (rewrite Hf; left).
      by apply list_elem_of_filter in Hin as [? _]. }
    unfold update_where. simpl. rewrite decide_True by done. by eexists.
Qed.

(** A [send] over an edge that is already there takes the update branch. *)
Lemma send_existing_edge_eq db caller target :
  user_exists db target →
  (∃ r, r ∈ friendships db ∧ is_edge caller target r) →
  send caller target db
  = (inr {| success := true |},
     mkDatabase (users db)
       (update_where (is_edge caller target)
          (Friendships.set_status requested) (friendships db))).
Proof.
  intros Hex (r & Hin & He).
  rewrite (send_guarded _ _ _ (canSendFriendshipRequest_ok _ _ Hex)).
  rewrite send_body_eq.
  destruct (filter (is_edge caller target) (friendships db)) eqn:Hf; [|done].
  exfalso. by eapply (filter_nil_not_elem_of _ _ r); [exact Hf| |].
Qed.

(** C5: for an existing target, a [send] over an edge [(caller, target)]
    that is already there, in whatever status, succeeds and inserts no row:
    the rows keep their places, ids and pairs, each row of the pair has its
    status overwritten to [requested] and every other row is as it was; in a
    store with at most one edge per ordered pair that leaves exactly one edge
    [(caller, target)], with status [requested].  In particular, from such a
    store, send, decline by the target and send again all succeed, and the
    second send adds no row to what the first one left: one edge
    [(caller, target)], [requested]. *)
Theorem send_overwrites_existing_edge db caller target :
  user_exists db target →
  ((∃ r, r ∈ friendships db ∧ is_edge caller target r) →
   ∃ db',
     send caller target db = (inr {| success := true |}, db')
     ∧ users db' = users db
     ∧ row_key <$> friendships db' = row_key <$> friendships db
     ∧ (∀ i r, friendships db !! i = Some r →
          friendships db' !! i
          = Some (if decide (is_edge caller target r)
                  then Friendships.set_status requested r else r))
     ∧ (unique_pairs (friendships db) →
        ∃ r', filter (is_edge caller target) (friendships db') = [r']
              ∧ Friendships.status r' = requested))
  ∧ (unique_pairs (friendships db) →
     ∃ db1 db2 db3,
       send caller target db = (inr {| success := true |}, db1)
       ∧ decline target caller db1 = (inr {| success := true |}, db2)
       ∧ send caller target db2 = (inr {| success := true |}, db3)
       ∧ row_key <$> friendships db3 = row_key <$> friendships db1
       ∧ ∃ r', filter (is_edge caller target) (friendships db3) = [r']
               ∧ Friendships.status r' = requested).
Proof.
  intros Hex. split.
  - intros Hedge. rewrite (send_existing_edge_eq _ _ _ Hex Hedge).
    eexists. split; [done|]. simpl. split; [done|].
    split; [apply update_where_keys|].
    split; [intros i r0 Hi; by apply update_where_lookup|].
    intros Hu.
    destruct (send_spec db caller target Hex Hu) as (db' & Hsend & _ & _ & Hone & _).
    rewrite (send_existing_edge_eq _ _ _ Hex Hedge) in Hsend.
    by injection Hsend as <-.
  - intros Hu.
    destruct (send_spec db caller target Hex Hu)
      as (db1 & Hsend1 & Husers1 & Hu1 & (r1 & Hf1 & Hs1) & _).
    assert (r1 ∈ filter (is_edge caller target) (friendships db1)) as Hin1
      by (rewrite Hf1; left).
    apply list_elem_of_filter in Hin1 as [He1 Hin1].
    assert (canAnswerFriendshipRequest target caller db1 = (inr tt, db1)) as Hg.
    { apply canAnswerFriendshipRequest_ok. by exists r1. }
    pose proof (decline_guarded _ _ _ Hg) as Hdecl.
    rewrite decline_body_eq in Hdecl.
    set (db2 := mkDatabase (users db1)
                  (update_where (is_edge caller target)
                     (Friendships.set_status declined) (friendships db1))) in *.
    assert (user_exists db2 target) as Hex2.
    { unfold user_exists, db2. simpl. by rewrite Husers1. }
    assert (unique_pairs (friendships db2)) as Hu2
      by (by apply update_where_unique_pairs).
    destruct (send_spec db2 caller target Hex2 Hu2)
      as (db3 & Hsend3 & _ & _ & Hone3 & Hupd3).
    exists db1, db2, db3. do 3 (split; [done|]). split; [|done].
    rewrite Hupd3.
    + rewrite update_where_keys. apply update_where_keys.
    + unfold db2. simpl. rewrite filter_edge_update_where, Hf1. done.
Qed.

Lemma send_overwrites_existing_edge_witness :
  user_exists db_pending 1
  ∧ (∃ r, r ∈ friendships db_pending ∧ is_edge 2 1 r)
  ∧ unique_pairs (friendships db_pending)
  ∧ ∃ db',
      send 2 1 db_pending = (inr {| success := true |}, db')
      ∧ ∃ r', filter (is_edge 2 1) (friendships db') = [r']
              ∧ Friendships.status r' = requested.
Proof.
  assert (user_exists db_pending 1) as Hex by (exists alice; split; [left|done]).
  assert (∃ r, r ∈ friendships db_pending ∧ is_edge 2 1 r) as Hedge.
  { exists (Friendships.mk 1 2 1 declined). split; [left|done]. }
  assert (unique_pairs (friendships db_pending)) as Hu.
  { unfold unique_pairs. by_evaluation. }
  do 3 (split; [done|]).
  destruct (send_overwrites_existing_edge db_pending 2 1 Hex) as [Hover _].
  destruct (Hover Hedge) as (db' & Hsend & _ & _ & _ & Hone).
  exists db'. split; [exact Hsend|]. exact (Hone Hu).
Defined.

(** ** decline *)

(** C9: when a [requested] edge [(requester, caller)] exists, [decline]
    returns the success flag, leaves the users alone and keeps every row in
    its place: a row of the ordered pair [(requester, caller)] has its status
    set to [declined], and every other row is exactly as it was; so the
    edges of the reciprocal pair [(caller, requester)] of two different
    users are the same before and after. *)
Theorem decline_changes_only_the_request db caller requester :
  has_edge (friendships db) requester caller requested →
  ∃ db',
    decline caller requester db = (inr {| success := true |}, db')
    ∧ users db' = users db
    ∧ length (friendships db') = length (friendships db)
    ∧ (∀ i r, friendships db !! i = Some r →
         friendships db' !! i
         = Some (if decide (is_edge requester caller r)
                 then Friendships.set_status declined r else r))
    ∧ (∀ r', r' ∈ friendships db' → is_edge requester caller r' →
         Friendships.status r' = declined)
    ∧ (caller ≠ requester →
       filter (is_edge caller requester) (friendships db')
       = filter (is_edge caller requester) (friendships db)).
Proof.
  intros Hreq.
  rewrite (decline_guarded _ _ _ (canAnswerFriendshipRequest_ok _ _ _ Hreq)).
  rewrite decline_body_eq. eexists. split; [done|]. simpl.
  split; [done|]. split; [apply update_where_length|].
  split; [intros i r Hi; by apply update_where_lookup|]. split.
  - intros r' Hin He. unfold update_where in Hin.
    apply list_elem_of_fmap in Hin as (r & -> & _).
    case_decide as Hd; [done|]. by destruct Hd.
  - intros Hne. rewrite filter_edge_update_where.
    unfold update_where. rewrite <- (list_fmap_id (filter _ (friendships db))) at 2.
    apply list_fmap_ext. intros i r Hi. simpl.
    apply list_elem_of_lookup_2, list_elem_of_filter in Hi as [[Hu Hf] _].
    rewrite decide_False; [done|]. intros [Hu' Hf']. congruence.
Qed.

Lemma decline_changes_only_the_request_witness :
  has_edge (friendships db_pending) 1 2 requested
  ∧ ∃ db',
      decline 2 1 db_pending = (inr {| success := true |}, db')
      ∧ friendships db'
        = [Friendships.mk 1 2 1 declined; Friendships.mk 2 1 2 declined].
Proof.
  assert (has_edge (friendships db_pending) 1 2 requested) as Hreq.
  { exists (Friendships.mk 2 1 2 requested). split; [right; left|done]. }
  split; [exact Hreq|].
  destruct (decline_changes_only_the_request db_pending 2 1 Hreq)
    as (db' & Hdecl & _).
  exists db'. split; [exact Hdecl|].
  vm_compute in Hdecl. by injection Hdecl as <-.
Defined.

(** ** accept *)

(** C10: when an edge [(requester, caller)] is in the table as the
    transaction of [accept] starts, the lookup that follows the first update
    finds a row, so the transaction takes the update branch: it returns, and
    the table it leaves has the same rows with the same ids and pairs, in the
    same places; nothing was inserted. *)
Theorem accept_never_inserts db caller requester :
  (∃ r, r ∈ friendships db ∧ is_edge requester caller r) →
  ∃ db1 existing_id db2,
    accept_update caller requester db = (inr tt, db1)
    ∧ accept_lookup caller requester db1 = (inr (Some existing_id), db1)
    ∧ accept_body caller requester db = (inr tt, db2)
    ∧ friendships db2
      = update_where (λ r, Friendships.id r = existing_id)
          (Friendships.set_status accepted) (friendships db1)
    ∧ users db2 = users db
    ∧ row_key <$> friendships db2 = row_key <$> friendships db
    ∧ (has_edge (friendships db) requester caller requested →
       accept caller requester db = (inr tt, db2)).
Proof.
  intros (r & Hin & He).
  assert (has_edge (friendships db) requester caller requested →
          accept caller requester db = accept_body caller requester db) as Hacc.
  { intros Hreq. by apply accept_guarded, canAnswerFriendshipRequest_ok. }
  rewrite accept_update_eq. rewrite accept_body_eq in *.
  cbv zeta in *.
  set (tbl1 := update_where (is_edge caller requester)
                 (Friendships.set_status accepted) (friendships db)) in *.
  destruct (filter (is_edge requester caller) tbl1) as [|r1 l] eqn:Hf.
  - exfalso. unfold tbl1 in Hf. rewrite filter_edge_update_where in Hf.
    apply fmap_nil_inv in Hf.
    by eapply (filter_nil_not_elem_of _ _ r); [exact Hf| |].
  - eexists _, (Friendships.id r1), _. split; [done|]. split.
    { unfold accept_lookup, query, executeTakeFirst. simpl. fold tbl1.
      by rewrite Hf. }
    split; [done|]. simpl. split; [done|]. split; [done|].
    split; [|done]. unfold tbl1. by rewrite !update_where_keys.
Qed.

Lemma accept_never_inserts_witness :
  (∃ r, r ∈ friendships db_pending ∧ is_edge 1 2 r)
  ∧ ∃ db2,
      accept_body 2 1 db_pending = (inr tt, db2)
      ∧ row_key <$> friendships db2 = row_key <$> friendships db_pending.
Proof.
  assert (∃ r, r ∈ friendships db_pending ∧ is_edge 1 2 r) as Hedge.
  { exists (Friendships.mk 2 1 2 requested). split; [right; left|done]. }
  split; [exact Hedge|].
  destruct (accept_never_inserts db_pending 2 1 Hedge)
    as (db1 & i & db2 & _ & _ & Hbody & _ & _ & Hkeys & _).
  by exists db2.
Defined.

(** What [accept] leaves of a request that had no reciprocal edge: the
    request is accepted, and there is still no edge back. *)
Lemma accept_leaves_no_reciprocal db caller requester :
  caller ≠ requester →
  has_edge (friendships db) requester caller requested →
  filter (is_edge caller requester) (friendships db) = [] →
  ∃ db',
    accept caller requester db = (inr tt, db')
    ∧ filter (is_edge caller requester) (friendships db') = [].
Proof.
  intros Hne Hreq Hnone.
  rewrite (accept_guarded _ _ _ (canAnswerFriendshipRequest_ok _ _ _ Hreq)).
  rewrite accept_body_eq. simpl. eexists. split; [done|]. simpl.
  destruct (filter (is_edge requester caller) _).
  - unfold insert_values.
    rewrite filter_app, filter_edge_update_where, Hnone. simpl.
    rewrite filter_cons_False; [done|]. intros [Hu _]. simpl in Hu. congruence.
  - by rewrite !filter_edge_update_where, Hnone.
Qed.

(** C1: on two users with no edge between them, send by Alice to Bob and
    then accept by Bob both succeed, and the table then holds the accepted
    edge from Alice to Bob and no edge from Bob to Alice. *)
Theorem accept_after_send_is_one_directional :
  ∃ db1 db2,
    send 1 2 db_fresh = (inr {| success := true |}, db1)
    ∧ friendships db1 = [Friendships.mk 1 1 2 requested]
    ∧ accept 2 1 db1 = (inr tt, db2)
    ∧ friendships db2 = [Friendships.mk 1 1 2 accepted]
    ∧ ¬ has_edge (friendships db2) 2 1 accepted.
Proof.
  eexists _, _. split; [by vm_compute|]. split; [done|].
  split; [by vm_compute|]. split; [done|].
  intros (r & Hin & [Hu _] & _). simpl in Hin.
  apply list_elem_of_singleton in Hin. by subst r.
Qed.

(** ** The relational combinators *)

Lemma elem_of_innerJoin {R S} (on : R * S → Prop) `{∀ p, Decision (on p)}
    (l : list R) (r : list S) (p : R * S) :
  p ∈ innerJoin on l r ↔ p.1 ∈ l ∧ p.2 ∈ r ∧ on p.
Proof.
  unfold innerJoin. rewrite list_elem_of_bind. split.
  - intros (a & Hp & Ha). apply list_elem_of_filter in Hp as [Hon Hp].
    apply list_elem_of_fmap in Hp as (b & -> & Hb). done.
  - intros (Ha & Hb & Hon). exists p.1. split; [|done].
    apply list_elem_of_filter. split; [done|].
    apply list_elem_of_fmap. exists p.2. by destruct p.
Qed.

Lemma filter_all {R} (P : R → Prop) `{∀ r, Decision (P r)} (l : list R) :
  (∀ r, r ∈ l → P r) → filter P l = l.
Proof.
  induction l as [|r l IH]; intros Hall; [done|].
  rewrite filter_cons_True by (apply Hall; left).
  f_equal. apply IH. intros r' Hr'. apply Hall. by right.
Qed.

Lemma remove_dups_constant {K} `{EqDecision K} (k : K) (l : list K) :
  (∀ x, x ∈ l → x = k) → l ≠ [] → remove_dups l = [k].
Proof.
  induction l as [|x l IH]; intros Hall Hne; [done|].
  assert (x = k) as -> by (apply Hall; left). simpl.
  destruct (decide_rel (∈) k l) as [Hin|Hnin].
  - apply IH; [|by destruct l; [apply elem_of_nil in Hin|]].
    intros z Hz. apply Hall. by right.
  - destruct l as [|y l]; [done|]. exfalso. apply Hnin.
    assert (y = k) as -> by (apply Hall; right; left). left.
Qed.

(** A query whose rows all carry one key has one group: all of its rows. *)
Lemma groupBy_constant {R K} `{EqDecision K} (key : R → K) (k : K) (rows : list R) :
  (∀ r, r ∈ rows → key r = k) → rows ≠ [] → groupBy key rows = [(k, rows)].
Proof.
  intros Hall Hne. unfold groupBy.
  rewrite (remove_dups_constant k).
  - simpl. by rewrite filter_all.
  - intros x Hx. apply list_elem_of_fmap in Hx as (r & -> & Hr). by apply Hall.
  - by destruct rows.
Qed.

(** ** The mutual friend count *)

(** Under the invariant, the accepted edges leaving one user lead to
    pairwise different users. *)
Lemma accepted_friends_NoDup (tbl : list Friendships.row) X :
  unique_pairs tbl → NoDup (accepted_friend_ids tbl X).
Proof.
  unfold unique_pairs, accepted_friend_ids. induction tbl as [|r tbl IH]; [constructor|].
  rewrite fmap_cons, NoDup_cons. intros [Hr Hnd]. rewrite filter_cons.
  case_decide as Hacc; [|by apply IH]. rewrite fmap_cons.
  apply NoDup_cons. split; [|by apply IH].
  intros Hin. apply Hr.
  apply list_elem_of_fmap in Hin as (r' & Heq & Hr').
  apply list_elem_of_filter in Hr' as [[Hu' _] Hr'].
  destruct Hacc as [Hu _].
  apply list_elem_of_fmap. exists r'. split; [|done].
  unfold Friendships.pair_of. congruence.
Qed.

Lemma length_filter_eq_NoDup (y : Z) (l : list Z) :
  NoDup l →
  length (filter (λ x, x = y) l) = if decide (y ∈ l) then 1%nat else 0%nat.
Proof.
  induction l as [|x l IH]; intros Hnd.
  - by rewrite decide_False by apply not_elem_of_nil.
  - apply NoDup_cons in Hnd as [Hx Hnd]. rewrite filter_cons.
    destruct (decide (x = y)) as [->|Hxy].
    + simpl. rewrite IH by done.
      rewrite decide_False by done. by rewrite decide_True by left.
    + rewrite IH by done.
      destruct (decide (y ∈ l)) as [Hin|Hnin].
      * rewrite decide_True; [done|by right].
      * rewrite decide_False; [done|].
        intros [?|?]%elem_of_cons; [congruence|done].
Qed.

Section MutualCount.
Context (tbl : list Friendships.row) (A B : Z).

(** One turn of the outer loop of the self-join, for the row [f1]: the
    rows it keeps are as many as the accepted edges of [B] that lead where
    [f1] leads, when [f1] is an accepted edge of [A], and none otherwise. *)
Lemma mutualFriendRows_inner (f1 : Friendships.row) (l : list Friendships.row) :
  length
    (filter (λ p : Friendships.row * Friendships.row,
               Friendships.userId p.1 = A ∧ Friendships.userId p.2 = B
               ∧ Friendships.status p.1 = accepted
               ∧ Friendships.status p.2 = accepted)
       (filter (λ p : Friendships.row * Friendships.row,
                  Friendships.friendUserId p.1 = Friendships.friendUserId p.2)
          (pair f1 <$> l)))
  = if decide (accepted_of A f1)
    then length (filter (λ x, x = Friendships.friendUserId f1)
                   (accepted_friend_ids l B))
    else 0%nat.
Proof.
  induction l as [|f2 l IH].
  - by case_decide.
  - rewrite fmap_cons, !filter_cons. simpl.
    unfold accepted_friend_ids, accepted_of in *.
    repeat (case_decide; simpl; rewrite ?filter_cons; simpl);
      rewrite ?IH; try done; try (exfalso; intuition congruence).
Qed.

Lemma mutualFriendRows_outer (l : list Friendships.row) :
  NoDup (accepted_friend_ids tbl B) →
  length
    (filter (λ p : Friendships.row * Friendships.row,
               Friendships.userId p.1 = A ∧ Friendships.userId p.2 = B
               ∧ Friendships.status p.1 = accepted
               ∧ Friendships.status p.2 = accepted)
       (innerJoin (λ p : Friendships.row * Friendships.row,
                     Friendships.friendUserId p.1 = Friendships.friendUserId p.2)
          l tbl))
  = length (filter (λ x, x ∈ accepted_friend_ids tbl B)
              (accepted_friend_ids l A)).
Proof.
  intros Hnd. unfold innerJoin. induction l as [|f1 l IH]; [done|].
  rewrite bind_cons, filter_app, length_app, IH, mutualFriendRows_inner.
  change (accepted_friend_ids (f1 :: l) A)
    with (Friendships.friendUserId <$> filter (accepted_of A) (f1 :: l)).
  rewrite (filter_cons (accepted_of A)).
  change (Friendships.friendUserId <$> filter (accepted_of A) l)
    with (accepted_friend_ids l A).
  case_decide as Hacc; [|done].
  rewrite fmap_cons, filter_cons.
  rewrite length_filter_eq_NoDup by done.
  by case_decide.
Qed.

(** The self-join keeps as many rows as there are distinct users [F] with
    both [(A, F, accepted)] and [(B, F, accepted)]. *)
Lemma mutualFriendRows_count :
  unique_pairs tbl →
  count (mutualFriendRows tbl A B) = mutual_friend_count_spec tbl A B.
Proof.
  intros Hu. unfold count, mutual_friend_count_spec, mutualFriendRows. f_equal.
  rewrite mutualFriendRows_outer by (by apply accepted_friends_NoDup).
  unfold accepted_friends.
  assert (list_to_set (accepted_friend_ids tbl A)
            ∩ list_to_set (accepted_friend_ids tbl B)
          =@{gset Z} list_to_set (filter (λ x, x ∈ accepted_friend_ids tbl B)
                                    (accepted_friend_ids tbl A)))
    as ->.
  { apply set_eq. intros x.
    rewrite elem_of_intersection, !elem_of_list_to_set, list_elem_of_filter.
    tauto. }
  rewrite size_list_to_set; [done|].
  apply NoDup_filter. by apply accepted_friends_NoDup.
Qed.

(** X17: what the select list of [getById] gets from the subquery: the number of
    mutual friends when there is one at least, and [NULL] when there is
    none, for then the grouped subquery has no row. *)
Lemma mutualFriendCountSubquery_value :
  unique_pairs tbl →
  scalar_subquery (mutualFriendCountSubquery tbl A B)
  = if decide (mutual_friend_count_spec tbl A B = 0) then JsNull
    else JsNumber (mutual_friend_count_spec tbl A B).
Proof.
  intros Hu. rewrite <- mutualFriendRows_count by done.
  unfold mutualFriendCountSubquery.
  destruct (mutualFriendRows tbl A B) as [|p rows] eqn:Hrows; [done|].
  rewrite (groupBy_constant _ A); [|..|done].
  - rewrite decide_False by (unfold count; simpl; lia). done.
  - intros q Hq. rewrite <- Hrows in Hq. unfold mutualFriendRows in Hq.
    apply list_elem_of_filter in Hq. tauto.
Qed.
End MutualCount.

(** ** getById *)

Lemma getById_rows_nil db caller friend :
  ¬ has_edge (friendships db) caller friend accepted →
  getById_rows db caller friend = [].
Proof.
  intros Hno. unfold getById_rows.
  match goal with |- _ <$> ?l = [] => destruct l as [|p l'] eqn:Hf end; [done|].
  exfalso. apply Hno.
  match type of Hf with filter ?Q ?j = _ =>
    assert (p ∈ filter Q j) as Hin by (rewrite Hf; left) end.
  apply list_elem_of_filter in Hin as [(Hu & Hfr & Hs) Hin].
  apply elem_of_innerJoin in Hin as (_ & Hin & _).
  by exists p.2.
Qed.

(** C8: without an accepted edge [(caller, friend)] in the table, whatever
    other edges the two users have, [getById] fails with a not-found error. *)
Theorem getById_without_accepted_edge db caller friend :
  ¬ has_edge (friendships db) caller friend accepted →
  getById caller friend db = (inl (TRPCError NOT_FOUND), db).
Proof.
  intros Hno. unfold getById, mbind, Proc_bind, query.
  by rewrite getById_rows_nil.
Qed.

Lemma getById_without_accepted_edge_witness :
  has_edge (friendships db_pending) 1 2 requested
  ∧ has_edge (friendships db_pending) 2 1 declined
  ∧ ¬ has_edge (friendships db_pending) 1 2 accepted
  ∧ getById 1 2 db_pending = (inl (TRPCError NOT_FOUND), db_pending).
Proof.
  assert (¬ has_edge (friendships db_pending) 1 2 accepted) as Hno.
  { intros (r & Hin & _ & Hs). simpl in Hin.
    rewrite !elem_of_cons in Hin. destruct Hin as [->| [->|Hin]]; [done..|].
    by apply elem_of_nil in Hin. }
  split; [exists (Friendships.mk 2 1 2 requested); split; [right; left|done]|].
  split; [exists (Friendships.mk 1 2 1 declined); split; [left|done]|].
  split; [exact Hno|]. exact (getById_without_accepted_edge db_pending 1 2 Hno).
Defined.

(** The columns of a row of the main query: there is no [totalFriendCount],
    and [mutualFriendCount] is the scalar of the subquery. *)
Lemma getById_rows_columns db caller friend (o : JsObject) :
  o ∈ getById_rows db caller friend →
  o !! "totalFriendCount" = None
  ∧ o !! "mutualFriendCount"
    = Some (scalar_subquery
              (mutualFriendCountSubquery (friendships db) caller friend)).
Proof.
  unfold getById_rows. intros Hin.
  apply list_elem_of_fmap in Hin as (p & -> & _). simpl. split.
  - repeat (rewrite lookup_insert_ne by done). by rewrite lookup_singleton_ne.
  - repeat (rewrite lookup_insert_ne by done). by rewrite lookup_singleton_eq.
Qed.

(** The schema rejects every object without a [totalFriendCount]. *)
Lemma FriendInfoSchema_parse_requires_total (o : JsObject) db :
  o !! "totalFriendCount" = None →
  FriendInfoSchema_parse o db = (inl ZodError, db).
Proof.
  intros Hnone. unfold FriendInfoSchema_parse. rewrite Hnone.
  destruct (IdSchema _); [|done]. simpl.
  destruct (NonEmptyStringSchema (o !! "fullName")); [|done]. simpl.
  by destruct (NonEmptyStringSchema (o !! "phoneNumber")).
Qed.

(** X13: [getById] returns to no caller: it throws not-found, or the schema
    throws on the row the query produced. *)
Lemma getById_never_returns db caller friend :
  getById caller friend db = (inl (TRPCError NOT_FOUND), db)
  ∨ getById caller friend db = (inl ZodError, db).
Proof.
  unfold getById, mbind, Proc_bind, query.
  destruct (getById_rows db caller friend) as [|o rows] eqn:Hrows; [by left|].
  right. simpl. apply FriendInfoSchema_parse_requires_total.
  eapply getById_rows_columns. rewrite Hrows. left.
Qed.

(** C2: Alice and Bob are accepted friends and Bob has two accepted edges.
    The row that [getById], called by Alice for Bob, reads has no
    [totalFriendCount] column, although [userTotalFriendCount] has Bob's
    count, and the schema rejects the row: no result is returned. *)
Theorem getById_has_no_totalFriendCount :
  has_edge (friendships db_friends) 1 2 accepted
  ∧ total_friend_count_spec (friendships db_friends) 2 = 2
  ∧ userTotalFriendCount db_friends = [(1, 1); (2, 2); (3, 1)]
  ∧ (∃ o : JsObject,
       getById_rows db_friends 1 2 = [o] ∧ o !! "totalFriendCount" = None)
  ∧ getById 1 2 db_friends = (inl ZodError, db_friends).
Proof.
  split; [exists (Friendships.mk 1 1 2 accepted); split; [left|done]|].
  split; [by vm_compute|]. split; [by vm_compute|].
  split; [eexists; split; by vm_compute|]. by vm_compute.
Qed.

(** C3: Alice and Bob are accepted friends and have no friend in common.
    The row that [getById] reads has [null] in [mutualFriendCount], not 0;
    the count schema rejects [null], so that the row would be rejected even
    with a [totalFriendCount] in it; no result is returned. *)
Theorem getById_no_mutual_friend_is_null :
  has_edge (friendships db_friends) 1 2 accepted
  ∧ mutual_friend_count_spec (friendships db_friends) 1 2 = 0
  ∧ (∃ o : JsObject,
       getById_rows db_friends 1 2 = [o]
       ∧ o !! "mutualFriendCount" = Some JsNull
       ∧ FriendInfoSchema_parse (<["totalFriendCount" := JsNumber 2]> o) db_friends
         = (inl ZodError, db_friends))
  ∧ getById 1 2 db_friends = (inl ZodError, db_friends).
Proof.
  split; [exists (Friendships.mk 1 1 2 accepted); split; [left|done]|].
  split; [by vm_compute|].
  split; [eexists; repeat split; by vm_compute|]. by vm_compute.
Qed.

(** C4: with A friends of X, Y, Z, B friends of Y, Z, W and A and B friends
    of each other, the table has one edge per ordered pair and two mutual
    friends, and the row that [getById] reads has 2 in [mutualFriendCount];
    the schema would accept the row with a [totalFriendCount] in it, but
    rejects the row as the query gives it: no result is returned.  With no
    friend in common the column holds [null], not 0. *)
Theorem getById_mutual_count_not_returned :
  unique_pairs (friendships db_mutual)
  ∧ has_edge (friendships db_mutual) 1 2 accepted
  ∧ mutual_friend_count_spec (friendships db_mutual) 1 2 = 2
  ∧ (∃ o : JsObject,
       getById_rows db_mutual 1 2 = [o]
       ∧ o !! "mutualFriendCount" = Some (JsNumber 2)
       ∧ FriendInfoSchema_parse (<["totalFriendCount" := JsNumber 4]> o) db_mutual
         = (inr (FriendInfo.mk 2 "Bob" "0902" 4 2), db_mutual))
  ∧ getById 1 2 db_mutual = (inl ZodError, db_mutual)
  ∧ unique_pairs (friendships db_friends)
  ∧ mutual_friend_count_spec (friendships db_friends) 1 2 = 0
  ∧ scalar_subquery (mutualFriendCountSubquery (friendships db_friends) 1 2)
    = JsNull.
Proof.
  split; [unfold unique_pairs; by_evaluation|].
  split.
  { exists (Friendships.mk 13 1 2 accepted). split; [|done].
    by_evaluation. }
  split; [by vm_compute|].
  split; [eexists; repeat split; by vm_compute|].
  split; [by vm_compute|].
  split; [unfold unique_pairs; by_evaluation|].
  split; by vm_compute.
Qed.


(** * Further properties of the routers *)

(** ** Rejected answers *)

(** X1: with no [requested] edge from [requester] to the caller, [accept] and
    [decline] both fail with a bad-request error and leave the store as it
    was. *)
Theorem answer_without_pending_request_rejected db caller requester :
  ¬ has_edge (friendships db) requester caller requested →
  accept caller requester db = (inl (TRPCError BAD_REQUEST), db)
  ∧ decline caller requester db = (inl (TRPCError BAD_REQUEST), db).
Proof.
  intros Hno.
  pose proof (canAnswerFriendshipRequest_fail _ _ _ Hno) as Hg.
  split; [by apply accept_rejected|by apply decline_rejected].
Qed.

Lemma answer_without_pending_request_rejected_witness :
  ¬ has_edge (friendships db_pending) 2 1 requested
  ∧ accept 1 2 db_pending = (inl (TRPCError BAD_REQUEST), db_pending)
  ∧ decline 1 2 db_pending = (inl (TRPCError BAD_REQUEST), db_pending).
Proof.
  assert (¬ has_edge (friendships db_pending) 2 1 requested) as Hno.
  { intros (r & Hin & [Hu _] & Hs). simpl in Hin.
    rewrite !elem_of_cons in Hin. destruct Hin as [->| [->|Hin]]; [done..|].
    by apply elem_of_nil in Hin. }
  split; [exact Hno|].
  exact (answer_without_pending_request_rejected db_pending 1 2 Hno).
Defined.

(** ** Rows are never removed *)

Lemma extends_rows_same_keys (tbl tbl' : list Friendships.row) :
  row_key <$> tbl' = row_key <$> tbl → extends_rows tbl tbl'.
Proof. intros Hk. exists []. rewrite Hk, app_nil_r. split; [done|]. simpl. lia. Qed.

Lemma extends_rows_insert a b s (tbl0 tbl : list Friendships.row) :
  row_key <$> tbl = row_key <$> tbl0 →
  extends_rows tbl0 (insert_values a b s tbl).
Proof.
  intros Hk. unfold insert_values. eexists [_].
  rewrite fmap_app, Hk. split; [done|]. simpl. lia.
Qed.

(** X2: no mutation touches the [users] table, and none removes, moves or
    re-keys a row of [friendships]: after [send], [accept] or [decline],
    returned or thrown, the table has its former rows in their places, with
    their ids and pairs, and at most one row more. *)
Theorem mutations_keep_users_and_rows db caller other :
  (users (send caller other db).2 = users db
   ∧ extends_rows (friendships db) (friendships (send caller other db).2))
  ∧ (users (accept caller other db).2 = users db
     ∧ extends_rows (friendships db) (friendships (accept caller other db).2))
  ∧ (users (decline caller other db).2 = users db
     ∧ extends_rows (friendships db) (friendships (decline caller other db).2)).
Proof.
  split; [|split].
  - destruct (canSendFriendshipRequest_cases db other) as [Hg|Hg].
    + rewrite (send_guarded _ _ _ Hg), send_body_eq. simpl. split; [done|].
      destruct (filter _ (friendships db)).
      * by apply extends_rows_insert.
      * apply extends_rows_same_keys, update_where_keys.
    + rewrite (send_rejected _ _ _ _ Hg). split; [done|].
      by apply extends_rows_same_keys.
  - destruct (canAnswerFriendshipRequest_cases db caller other) as [Hg|Hg].
    + rewrite (accept_guarded _ _ _ Hg), accept_body_eq. simpl. split; [done|].
      destruct (filter _ _).
      * apply extends_rows_insert, update_where_keys.
      * apply extends_rows_same_keys. by rewrite !update_where_keys.
    + rewrite (accept_rejected _ _ _ _ Hg). split; [done|].
      by apply extends_rows_same_keys.
  - destruct (canAnswerFriendshipRequest_cases db caller other) as [Hg|Hg].
    + rewrite (decline_guarded _ _ _ Hg), decline_body_eq. simpl. split; [done|].
      apply extends_rows_same_keys, update_where_keys.
    + rewrite (decline_rejected _ _ _ _ Hg). split; [done|].
      by apply extends_rows_same_keys.
Qed.

(** ** send *)

(** X3: a [send] to an existing user, when the table has no edge of the ordered
    pair [(caller, target)], leaves the table with exactly one row appended:
    an edge [(caller, target)] with status [requested]. *)
Theorem send_new_edge_appends db caller target :
  user_exists db target →
  ¬ (∃ r, r ∈ friendships db ∧ is_edge caller target r) →
  ∃ r,
    send caller target db
    = (inr {| success := true |}, mkDatabase (users db) (friendships db ++ [r]))
    ∧ is_edge caller target r
    ∧ Friendships.status r = requested.
Proof.
  intros Hex Hno.
  rewrite (send_guarded _ _ _ (canSendFriendshipRequest_ok _ _ Hex)), send_body_eq.
  destruct (filter (is_edge caller target) (friendships db)) as [|r0 l] eqn:Hf.
  - unfold insert_values. by eexists.
  - exfalso. apply Hno. exists r0.
    assert (r0 ∈ filter (is_edge caller target) (friendships db)) as Hin
      by (rewrite Hf; left).
    apply list_elem_of_filter in Hin. tauto.
Qed.

Lemma send_new_edge_appends_witness :
  user_exists db_requested 1
  ∧ ¬ (∃ r, r ∈ friendships db_requested ∧ is_edge 2 1 r)
  ∧ ∃ r,
      send 2 1 db_requested
      = (inr {| success := true |},
         mkDatabase (users db_requested) (friendships db_requested ++ [r]))
      ∧ is_edge 2 1 r
      ∧ Friendships.status r = requested.
Proof.
  assert (user_exists db_requested 1) as Hex by (exists alice; split; [left|done]).
  assert (¬ (∃ r, r ∈ friendships db_requested ∧ is_edge 2 1 r)) as Hno.
  { intros (r & Hin & [Hu _]). simpl in Hin.
    apply list_elem_of_singleton in Hin. by subst r. }
  split; [exact Hex|]. split; [exact Hno|].
  exact (send_new_edge_appends db_requested 2 1 Hex Hno).
Defined.

Lemma update_where_fixed {R} (P : R → Prop) `{∀ r, Decision (P r)}
    (f : R → R) (l : list R) :
  (∀ r, r ∈ l → P r → f r = r) → update_where P f l = l.
Proof.
  intros Hfix. unfold update_where.
  rewrite <- (list_fmap_id l) at 2. apply list_fmap_ext.
  intros i r Hi. simpl. case_decide; [|done].
  apply Hfix; [|done]. by eapply list_elem_of_lookup_2.
Qed.

(** X4: [send] is idempotent: a second [send] by the same caller to the same
    existing user succeeds like the first and leaves the store the first one
    left. *)
Theorem send_twice_is_send_once db caller target :
  user_exists db target →
  ∃ db',
    send caller target db = (inr {| success := true |}, db')
    ∧ send caller target db' = (inr {| success := true |}, db').
Proof.
  intros Hex.
  rewrite (send_guarded _ _ _ (canSendFriendshipRequest_ok _ _ Hex)), send_body_eq.
  eexists. split; [done|].
  match goal with |- send _ _ ?d = _ => set (db' := d) end.
  assert (user_exists db' target) as Hex' by done.
  rewrite (send_guarded _ _ _ (canSendFriendshipRequest_ok _ _ Hex')), send_body_eq.
  unfold db'. simpl.
  destruct (filter (is_edge caller target) (friendships db)) as [|r0 l] eqn:Hf.
  - unfold insert_values at 1. rewrite filter_app, Hf. simpl.
    rewrite filter_cons_True by done. simpl.
    rewrite update_where_fixed; [done|].
    intros r [Hin| ->%list_elem_of_singleton]%elem_of_app He; [|done].
    exfalso. by eapply (filter_nil_not_elem_of _ _ r); [exact Hf| |].
  - rewrite filter_edge_update_where, Hf.
    change (update_where ?P ?f (r0 :: l)) with
      ((if decide (P r0) then f r0 else r0) :: update_where P f l).
    cbv iota. rewrite update_where_fixed; [done|].
    intros r Hin He. unfold update_where in Hin.
    apply list_elem_of_fmap in Hin as (r1 & -> & _).
    by case_decide.
Qed.

Lemma send_twice_is_send_once_witness :
  user_exists db_pending 1
  ∧ ∃ db',
      send 2 1 db_pending = (inr {| success := true |}, db')
      ∧ send 2 1 db' = (inr {| success := true |}, db').
Proof.
  assert (user_exists db_pending 1) as Hex by (exists alice; split; [left|done]).
  split; [exact Hex|]. exact (send_twice_is_send_once db_pending 2 1 Hex).
Defined.

(** ** accept and decline *)

(** Under the invariant, an edge that is in the table is the one row of its
    ordered pair. *)
Lemma unique_pairs_the_edge a b (tbl : list Friendships.row) r :
  unique_pairs tbl → r ∈ tbl → is_edge a b r →
  filter (is_edge a b) tbl = [r].
Proof.
  intros Hu Hin He.
  pose proof (unique_pairs_filter_edge a b tbl Hu) as Hlen.
  assert (r ∈ filter (is_edge a b) tbl) as Hf by (by apply list_elem_of_filter).
  destruct (filter (is_edge a b) tbl) as [|r0 [|r1 l]]; simpl in Hlen; [| |lia].
  - by apply elem_of_nil in Hf.
  - by apply list_elem_of_singleton in Hf as ->.
Qed.

(** The rows of an ordered pair all have one status when the only row of the
    pair has it. *)
Lemma only_edge_status a b (tbl : list Friendships.row) r s :
  filter (is_edge a b) tbl = [r] → Friendships.status r = s →
  ∀ r', r' ∈ tbl → is_edge a b r' → Friendships.status r' = s.
Proof.
  intros Hf Hs r' Hin He.
  assert (r' ∈ filter (is_edge a b) tbl) as Hin' by (by apply list_elem_of_filter).
  rewrite Hf in Hin'. by apply list_elem_of_singleton in Hin' as ->.
Qed.

(** What [accept] does to the request it answers, in a store with one edge
    per ordered pair. *)
Lemma accept_request_accepted db caller requester :
  unique_pairs (friendships db) →
  has_edge (friendships db) requester caller requested →
  ∃ db',
    accept caller requester db = (inr tt, db')
    ∧ users db' = users db
    ∧ unique_pairs (friendships db')
    ∧ (∃ r1, filter (is_edge requester caller) (friendships db') = [r1]
             ∧ Friendships.status r1 = accepted)
    ∧ (∀ r2, r2 ∈ friendships db' → is_edge caller requester r2 →
         Friendships.status r2 = accepted)
    ∧ length (filter (is_edge caller requester) (friendships db'))
      = length (filter (is_edge caller requester) (friendships db)).
Proof.
  intros Hu Hreq.
  rewrite (accept_guarded _ _ _ (canAnswerFriendshipRequest_ok _ _ _ Hreq)).
  pose proof (accept_body_unique_pairs db caller requester Hu) as Hu'.
  rewrite accept_body_eq in *. cbv zeta in *. simpl in Hu'.
  destruct Hreq as (r & Hin & He & _).
  pose proof (unique_pairs_the_edge _ _ _ _ Hu Hin He) as Hf.
  set (tbl1 := update_where (is_edge caller requester)
                 (Friendships.set_status accepted) (friendships db)) in *.
  assert (filter (is_edge requester caller) tbl1
          = [if decide (is_edge caller requester r)
             then Friendships.set_status accepted r else r]) as Hf1.
  { unfold tbl1. by rewrite filter_edge_update_where, Hf. }
  rewrite Hf1 in *.
  eexists. split; [done|]. simpl. split; [done|]. split; [done|]. split; [|split].
  - rewrite filter_edge_update_where, Hf1.
    unfold update_where. simpl. rewrite decide_True by done. by eexists.
  - intros r2 Hin2 He2. unfold update_where in Hin2.
    apply list_elem_of_fmap in Hin2 as (r3 & -> & Hin3).
    case_decide; [done|].
    apply list_elem_of_fmap in Hin3 as (r4 & -> & _).
    case_decide as Hd; [done|]. by destruct Hd.
  - unfold tbl1. rewrite !filter_edge_update_where.
    by rewrite !update_where_length.
Qed.

(** X6: when the caller already has an edge to the requester, in whatever
    status, and the store has one edge per ordered pair, [accept] of the
    pending request succeeds and leaves the two users with one edge in each
    direction, both [accepted]. *)
Theorem accept_with_reciprocal_edge_is_symmetric db caller requester :
  unique_pairs (friendships db) →
  has_edge (friendships db) requester caller requested →
  (∃ r, r ∈ friendships db ∧ is_edge caller requester r) →
  ∃ db',
    accept caller requester db = (inr tt, db')
    ∧ (∃ r1, filter (is_edge requester caller) (friendships db') = [r1]
             ∧ Friendships.status r1 = accepted)
    ∧ (∃ r2, filter (is_edge caller requester) (friendships db') = [r2]
             ∧ Friendships.status r2 = accepted).
Proof.
  intros Hu Hreq (r & Hin & He).
  destruct (accept_request_accepted db caller requester Hu Hreq)
    as (db' & Hacc & _ & _ & Hone & Hback & Hlen).
  exists db'. split; [done|]. split; [done|].
  rewrite (unique_pairs_the_edge _ _ _ _ Hu Hin He) in Hlen. simpl in Hlen.
  destruct (filter (is_edge caller requester) (friendships db'))
    as [|r2 [|r3 l]] eqn:Hf; simpl in Hlen; [lia| |lia].
  exists r2. split; [done|].
  assert (r2 ∈ filter (is_edge caller requester) (friendships db')) as Hin2
    by (rewrite Hf; left).
  apply list_elem_of_filter in Hin2 as [He2 Hin2]. by apply Hback.
Qed.

Lemma accept_with_reciprocal_edge_is_symmetric_witness :
  unique_pairs (friendships db_pending)
  ∧ has_edge (friendships db_pending) 1 2 requested
  ∧ (∃ r, r ∈ friendships db_pending ∧ is_edge 2 1 r)
  ∧ ∃ db',
      accept 2 1 db_pending = (inr tt, db')
      ∧ (∃ r1, filter (is_edge 1 2) (friendships db') = [r1]
               ∧ Friendships.status r1 = accepted)
      ∧ (∃ r2, filter (is_edge 2 1) (friendships db') = [r2]
               ∧ Friendships.status r2 = accepted).
Proof.
  assert (unique_pairs (friendships db_pending)) as Hu.
  { unfold unique_pairs. by_evaluation. }
  assert (has_edge (friendships db_pending) 1 2 requested) as Hreq.
  { exists (Friendships.mk 2 1 2 requested). split; [right; left|done]. }
  assert (∃ r, r ∈ friendships db_pending ∧ is_edge 2 1 r) as Hback.
  { exists (Friendships.mk 1 2 1 declined). split; [left|done]. }
  do 3 (split; [done|]).
  exact (accept_with_reciprocal_edge_is_symmetric db_pending 2 1 Hu Hreq Hback).
Defined.

(** X9: once [accept] has answered a request, in a store with one edge per
    ordered pair, the request is pending no more: a second [accept] and a
    [decline] of it both fail with a bad-request error and change nothing. *)
Theorem accepted_request_cannot_be_answered_again db caller requester :
  unique_pairs (friendships db) →
  has_edge (friendships db) requester caller requested →
  ∃ db',
    accept caller requester db = (inr tt, db')
    ∧ accept caller requester db' = (inl (TRPCError BAD_REQUEST), db')
    ∧ decline caller requester db' = (inl (TRPCError BAD_REQUEST), db').
Proof.
  intros Hu Hreq.
  destruct (accept_request_accepted db caller requester Hu Hreq)
    as (db' & Hacc & _ & _ & (r1 & Hf1 & Hs1) & _).
  exists db'. split; [done|].
  assert (¬ has_edge (friendships db') requester caller requested) as Hno.
  { intros (r & Hin & He & Hs).
    by rewrite (only_edge_status _ _ _ _ _ Hf1 Hs1 r Hin He) in Hs. }
  pose proof (canAnswerFriendshipRequest_fail _ _ _ Hno) as Hg.
  split; [by apply accept_rejected|by apply decline_rejected].
Qed.

Lemma accepted_request_cannot_be_answered_again_witness :
  unique_pairs (friendships db_requested)
  ∧ has_edge (friendships db_requested) 1 2 requested
  ∧ ∃ db',
      accept 2 1 db_requested = (inr tt, db')
      ∧ accept 2 1 db' = (inl (TRPCError BAD_REQUEST), db')
      ∧ decline 2 1 db' = (inl (TRPCError BAD_REQUEST), db').
Proof.
  assert (unique_pairs (friendships db_requested)) as Hu.
  { unfold unique_pairs. by_evaluation. }
  assert (has_edge (friendships db_requested) 1 2 requested) as Hreq.
  { exists (Friendships.mk 1 1 2 requested). split; [left|done]. }
  do 2 (split; [done|]).
  exact (accepted_request_cannot_be_answered_again db_requested 2 1 Hu Hreq).
Defined.

(** X10: once [decline] has answered a request, whatever the store, no row of the
    pair is [requested]: an [accept] and a second [decline] of it both fail
    with a bad-request error and change nothing. *)
Theorem declined_request_cannot_be_answered_again db caller requester :
  has_edge (friendships db) requester caller requested →
  ∃ db',
    decline caller requester db = (inr {| success := true |}, db')
    ∧ accept caller requester db' = (inl (TRPCError BAD_REQUEST), db')
    ∧ decline caller requester db' = (inl (TRPCError BAD_REQUEST), db').
Proof.
  intros Hreq.
  rewrite (decline_guarded _ _ _ (canAnswerFriendshipRequest_ok _ _ _ Hreq)).
  rewrite decline_body_eq. eexists. split; [done|].
  match goal with |- accept _ _ ?d = _ ∧ _ => set (db' := d) end.
  assert (¬ has_edge (friendships db') requester caller requested) as Hno.
  { intros (r & Hin & He & Hs). unfold db', update_where in Hin. simpl in Hin.
    apply list_elem_of_fmap in Hin as (r0 & -> & _).
    case_decide as Hd; [done|]. by destruct Hd. }
  pose proof (canAnswerFriendshipRequest_fail _ _ _ Hno) as Hg.
  split; [by apply accept_rejected|by apply decline_rejected].
Qed.

Lemma declined_request_cannot_be_answered_again_witness :
  has_edge (friendships db_requested) 1 2 requested
  ∧ ∃ db',
      decline 2 1 db_requested = (inr {| success := true |}, db')
      ∧ accept 2 1 db' = (inl (TRPCError BAD_REQUEST), db')
      ∧ decline 2 1 db' = (inl (TRPCError BAD_REQUEST), db').
Proof.
  assert (has_edge (friendships db_requested) 1 2 requested) as Hreq.
  { exists (Friendships.mk 1 1 2 requested). split; [left|done]. }
  split; [done|].
  exact (declined_request_cannot_be_answered_again db_requested 2 1 Hreq).
Defined.

Lemma NoDup_fmap_elem_eq {A B} (f : A → B) (l : list A) x y :
  NoDup (f <$> l) → x ∈ l → y ∈ l → f x = f y → x = y.
Proof.
  induction l as [|a l IH]; intros Hnd Hx Hy Heq.
  - by apply elem_of_nil in Hx.
  - rewrite fmap_cons in Hnd. apply NoDup_cons in Hnd as [Ha Hnd].
    apply elem_of_cons in Hx as [->|Hx]; apply elem_of_cons in Hy as [->|Hy].
    + done.
    + exfalso. apply Ha. rewrite Heq. by apply list_elem_of_fmap_2.
    + exfalso. apply Ha. rewrite <- Heq. by apply list_elem_of_fmap_2.
    + by apply IH.
Qed.

(** X8: in a table whose rows have pairwise different ids, [accept] of a pending
    request adds no row and leaves every row that is neither an edge
    [(caller, requester)] nor an edge [(requester, caller)] exactly as it
    was, in its place. *)
Theorem accept_changes_only_the_two_directions db caller requester :
  unique_ids (friendships db) →
  has_edge (friendships db) requester caller requested →
  ∃ db',
    accept caller requester db = (inr tt, db')
    ∧ length (friendships db') = length (friendships db)
    ∧ ∀ i r, friendships db !! i = Some r →
        ¬ is_edge caller requester r → ¬ is_edge requester caller r →
        friendships db' !! i = Some r.
Proof.
  intros Hids Hreq.
  rewrite (accept_guarded _ _ _ (canAnswerFriendshipRequest_ok _ _ _ Hreq)).
  rewrite accept_body_eq. cbv zeta.
  destruct Hreq as (rq & Hin & He & _).
  set (tbl1 := update_where (is_edge caller requester)
                 (Friendships.set_status accepted) (friendships db)).
  destruct (filter (is_edge requester caller) tbl1) as [|ex l] eqn:Hf.
  { exfalso. unfold tbl1 in Hf. rewrite filter_edge_update_where in Hf.
    apply fmap_nil_inv in Hf.
    by eapply (filter_nil_not_elem_of _ _ rq); [exact Hf| |]. }
  eexists. split; [done|]. simpl. split.
  { unfold tbl1. by rewrite !update_where_length. }
  intros i r Hi Hn1 Hn2.
  assert (tbl1 !! i = Some r) as Hi1.
  { unfold tbl1. rewrite (update_where_lookup _ _ _ _ _ Hi).
    by rewrite decide_False. }
  rewrite (update_where_lookup _ _ _ _ _ Hi1).
  rewrite decide_False; [done|]. intros Hid.
  assert (ex ∈ filter (is_edge requester caller) tbl1) as Hex
    by (rewrite Hf; left).
  apply list_elem_of_filter in Hex as [Hee Hex].
  unfold tbl1, update_where in Hex.
  apply list_elem_of_fmap in Hex as (r0 & Hex & Hin0).
  assert (Friendships.id ex = Friendships.id r0 ∧ is_edge requester caller r0)
    as [Hid0 He0] by (subst ex; by case_decide).
  apply Hn2.
  rewrite (NoDup_fmap_elem_eq Friendships.id (friendships db) r r0); try done.
  - by eapply list_elem_of_lookup_2.
  - congruence.
Qed.

Lemma accept_changes_only_the_two_directions_witness :
  unique_ids (friendships db_friends ++ [Friendships.mk 5 3 1 requested])
  ∧ has_edge (friendships db_friends ++ [Friendships.mk 5 3 1 requested])
      3 1 requested
  ∧ ∃ db',
      accept 1 3
        (mkDatabase (users db_friends)
           (friendships db_friends ++ [Friendships.mk 5 3 1 requested]))
      = (inr tt, db')
      ∧ friendships db' !! 2%nat = Some (Friendships.mk 3 2 3 accepted).
Proof.
  set (db := mkDatabase (users db_friends)
               (friendships db_friends ++ [Friendships.mk 5 3 1 requested])).
  assert (unique_ids (friendships db)) as Hids.
  { unfold unique_ids. by_evaluation. }
  assert (has_edge (friendships db) 3 1 requested) as Hreq.
  { exists (Friendships.mk 5 3 1 requested). split; [by_evaluation|done]. }
  split; [exact Hids|]. split; [exact Hreq|].
  destruct (accept_changes_only_the_two_directions db 1 3 Hids Hreq)
    as (db' & Hacc & _ & Hframe).
  exists db'. split; [exact Hacc|].
  apply Hframe; [done| |]; by intros [? ?].
Defined.

(** X7: when the caller has no edge to the requester, [accept] of the pending
    request succeeds and creates none: the caller still has no edge to the
    requester, and [getById] by the caller for the requester fails with a
    not-found error. *)
Theorem accept_without_reciprocal_edge_hides_requester db caller requester :
  caller ≠ requester →
  has_edge (friendships db) requester caller requested →
  ¬ (∃ r, r ∈ friendships db ∧ is_edge caller requester r) →
  ∃ db',
    accept caller requester db = (inr tt, db')
    ∧ ¬ (∃ r, r ∈ friendships db' ∧ is_edge caller requester r)
    ∧ getById caller requester db' = (inl (TRPCError NOT_FOUND), db').
Proof.
  intros Hne Hreq Hno.
  assert (filter (is_edge caller requester) (friendships db) = []) as Hnone.
  { destruct (filter _ (friendships db)) as [|r0 l] eqn:Hf; [done|].
    exfalso. apply Hno. exists r0.
    assert (r0 ∈ filter (is_edge caller requester) (friendships db)) as Hin
      by (rewrite Hf; left).
    apply list_elem_of_filter in Hin. tauto. }
  destruct (accept_leaves_no_reciprocal db caller requester Hne Hreq Hnone)
    as (db' & Hacc & Hnone').
  exists db'. split; [done|].
  assert (¬ (∃ r, r ∈ friendships db' ∧ is_edge caller requester r)) as Hno'.
  { intros (r & Hin & He).
    by eapply (filter_nil_not_elem_of _ _ r); [exact Hnone'| |]. }
  split; [done|].
  unfold getById, mbind, Proc_bind, query.
  rewrite getById_rows_nil; [done|].
  intros (r & Hin & He & _). apply Hno'. by exists r.
Qed.

Lemma accept_without_reciprocal_edge_hides_requester_witness :
  2 ≠ 1
  ∧ has_edge (friendships db_requested) 1 2 requested
  ∧ ¬ (∃ r, r ∈ friendships db_requested ∧ is_edge 2 1 r)
  ∧ ∃ db',
      accept 2 1 db_requested = (inr tt, db')
      ∧ getById 2 1 db' = (inl (TRPCError NOT_FOUND), db').
Proof.
  assert (has_edge (friendships db_requested) 1 2 requested) as Hreq.
  { exists (Friendships.mk 1 1 2 requested). split; [left|done]. }
  assert (¬ (∃ r, r ∈ friendships db_requested ∧ is_edge 2 1 r)) as Hno.
  { intros (r & Hin & [Hu _]). simpl in Hin.
    apply list_elem_of_singleton in Hin. by subst r. }
  split; [done|]. split; [exact Hreq|]. split; [exact Hno|].
  destruct (accept_without_reciprocal_edge_hides_requester db_requested 2 1
              ltac:(done) Hreq Hno) as (db' & Hacc & _ & Hget).
  by exists db'.
Defined.

(** X11: [send] does not tell the caller from the target: a user can send a
    request to themselves and accept it, which leaves one edge from the user
    to the user, [accepted]. *)
Theorem self_request_can_be_sent_and_accepted db user :
  user_exists db user →
  unique_pairs (friendships db) →
  ∃ db1 db2,
    send user user db = (inr {| success := true |}, db1)
    ∧ accept user user db1 = (inr tt, db2)
    ∧ ∃ r, filter (is_edge user user) (friendships db2) = [r]
           ∧ Friendships.status r = accepted.
Proof.
  intros Hex Hu.
  destruct (send_spec db user user Hex Hu)
    as (db1 & Hsend & _ & Hu1 & (r1 & Hf1 & Hs1) & _).
  assert (has_edge (friendships db1) user user requested) as Hreq.
  { exists r1.
    assert (r1 ∈ filter (is_edge user user) (friendships db1)) as Hin
      by (rewrite Hf1; left).
    apply list_elem_of_filter in Hin. tauto. }
  destruct (accept_request_accepted db1 user user Hu1 Hreq)
    as (db2 & Hacc & _ & _ & Hone & _).
  by exists db1, db2.
Qed.

Lemma self_request_can_be_sent_and_accepted_witness :
  user_exists db_fresh 1
  ∧ unique_pairs (friendships db_fresh)
  ∧ ∃ db1 db2,
      send 1 1 db_fresh = (inr {| success := true |}, db1)
      ∧ accept 1 1 db1 = (inr tt, db2)
      ∧ ∃ r, filter (is_edge 1 1) (friendships db2) = [r]
             ∧ Friendships.status r = accepted.
Proof.
  assert (user_exists db_fresh 1) as Hex by (exists alice; split; [left|done]).
  assert (unique_pairs (friendships db_fresh)) as Hu by constructor.
  do 2 (split; [done|]).
  exact (self_request_can_be_sent_and_accepted db_fresh 1 Hex Hu).
Defined.

(** ** Sequences of calls *)

Lemma run_call_unique_pairs db c :
  unique_pairs (friendships db) → unique_pairs (friendships (run_call db c)).
Proof.
  intros Hu. destruct c as [u f|u f|u f]; simpl.
  - destruct (canSendFriendshipRequest_cases db f) as [Hg|Hg].
    + rewrite (send_guarded _ _ _ Hg). by apply send_body_unique_pairs.
    + by rewrite (send_rejected _ _ _ _ Hg).
  - destruct (canAnswerFriendshipRequest_cases db u f) as [Hg|Hg].
    + rewrite (accept_guarded _ _ _ Hg). by apply accept_body_unique_pairs.
    + by rewrite (accept_rejected _ _ _ _ Hg).
  - destruct (canAnswerFriendshipRequest_cases db u f) as [Hg|Hg].
    + rewrite (decline_guarded _ _ _ Hg). by apply decline_body_unique_pairs.
    + by rewrite (decline_rejected _ _ _ _ Hg).
Qed.

(** X12: whatever calls of [send], [accept] and [decline] are made, by whatever
    users and in whatever order, a table that starts with at most one edge
    per ordered pair (an empty one, say) never comes to hold two rows for one
    ordered pair. *)
Theorem calls_never_duplicate_an_edge cs db :
  unique_pairs (friendships db) →
  unique_pairs (friendships (run_calls db cs)).
Proof.
  revert db. induction cs as [|c cs IH]; intros db Hu; [done|].
  simpl. apply IH. by apply run_call_unique_pairs.
Qed.

Lemma calls_never_duplicate_an_edge_witness :
  unique_pairs (friendships db_fresh)
  ∧ unique_pairs
      (friendships
         (run_calls db_fresh
            [Send 1 2; Send 2 1; Send 1 2; Accept 2 1; Decline 1 2; Send 1 2])).
Proof.
  assert (unique_pairs (friendships db_fresh)) as Hu by constructor.
  split; [exact Hu|]. exact (calls_never_duplicate_an_edge _ db_fresh Hu).
Defined.

(** ** getById and the derived relations *)

(** X15: [getById] fails with a not-found error when no user has the friend's
    id, even if the table holds an accepted edge to that id: the main query
    starts from the [users] table. *)
Theorem getById_unknown_friend_not_found db caller friend :
  ¬ user_exists db friend →
  getById caller friend db = (inl (TRPCError NOT_FOUND), db).
Proof.
  intros Hno. unfold getById, mbind, Proc_bind, query.
  assert (getById_rows db caller friend = []) as ->; [|done].
  unfold getById_rows.
  match goal with |- _ <$> ?l = [] => destruct l as [|p l'] eqn:Hf end; [done|].
  exfalso. apply Hno.
  match type of Hf with filter ?Q ?j = _ =>
    assert (p ∈ filter Q j) as Hin by (rewrite Hf; left) end.
  apply list_elem_of_filter in Hin as [(_ & Hfr & _) Hin].
  apply elem_of_innerJoin in Hin as (Hu & _ & Hon).
  exists p.1. split; [done|]. congruence.
Qed.

Lemma getById_unknown_friend_not_found_witness :
  ¬ user_exists (mkDatabase [alice] [Friendships.mk 1 1 9 accepted]) 9
  ∧ has_edge [Friendships.mk 1 1 9 accepted] 1 9 accepted
  ∧ getById 1 9 (mkDatabase [alice] [Friendships.mk 1 1 9 accepted])
    = (inl (TRPCError NOT_FOUND),
       mkDatabase [alice] [Friendships.mk 1 1 9 accepted]).
Proof.
  assert (¬ user_exists (mkDatabase [alice] [Friendships.mk 1 1 9 accepted]) 9)
    as Hno.
  { intros (u & Hu & Hid). simpl in Hu.
    apply list_elem_of_singleton in Hu. by subst u. }
  split; [exact Hno|].
  split; [exists (Friendships.mk 1 1 9 accepted); split; [left|done]|].
  exact (getById_unknown_friend_not_found _ 1 9 Hno).
Defined.

(** X14: when the caller has an accepted edge to the friend and the friend is a
    user, the main query has a row, the row has no [totalFriendCount], and
    [getById] throws the schema's validation error; the store is as it
    was. *)
Theorem getById_of_a_friend_fails_validation db caller friend :
  has_edge (friendships db) caller friend accepted →
  user_exists db friend →
  getById caller friend db = (inl ZodError, db).
Proof.
  intros (r & Hin & [Hu Hf] & Hs) (u & Hinu & Hid).
  unfold getById, mbind, Proc_bind, query.
  destruct (getById_rows db caller friend) as [|o rows] eqn:Hrows.
  - exfalso. unfold getById_rows in Hrows. apply fmap_nil_inv in Hrows.
    eapply (filter_nil_not_elem_of _ _ (u, r)); [exact Hrows|done|].
    apply elem_of_innerJoin. simpl. split; [done|]. split; [done|]. congruence.
  - simpl. apply FriendInfoSchema_parse_requires_total.
    eapply getById_rows_columns. rewrite Hrows. left.
Qed.

Lemma getById_of_a_friend_fails_validation_witness :
  has_edge (friendships db_mutual) 2 1 accepted
  ∧ user_exists db_mutual 1
  ∧ getById 2 1 db_mutual = (inl ZodError, db_mutual).
Proof.
  assert (has_edge (friendships db_mutual) 2 1 accepted) as Hacc.
  { exists (Friendships.mk 14 2 1 accepted). split; [by_evaluation|done]. }
  assert (user_exists db_mutual 1) as Hex by (exists alice; split; [left|done]).
  do 2 (split; [done|]).
  exact (getById_of_a_friend_fails_validation db_mutual 2 1 Hacc Hex).
Defined.

Lemma elem_of_groupBy {R K} `{EqDecision K} (key : R → K) (rows : list R)
    (k : K) (g : list R) :
  (k, g) ∈ groupBy key rows ↔ g = filter (λ r, key r = k) rows ∧ g ≠ [].
Proof.
  unfold groupBy. rewrite list_elem_of_fmap. split.
  - intros (k' & [= -> ->] & Hk). split; [done|].
    apply elem_of_remove_dups, list_elem_of_fmap in Hk as (r & -> & Hr).
    intros Hnil. by eapply (filter_nil_not_elem_of _ _ r); [exact Hnil| |].
  - intros [-> Hne]. exists k. split; [done|].
    apply elem_of_remove_dups, list_elem_of_fmap.
    destruct (filter (λ r, key r = k) rows) as [|r l] eqn:Hf; [done|].
    assert (r ∈ filter (λ r, key r = k) rows) as Hin by (rewrite Hf; left).
    apply list_elem_of_filter in Hin as [Hk Hin]. by exists r.
Qed.

Lemma groupBy_keys_NoDup {R K} `{EqDecision K} (key : R → K) (rows : list R) :
  NoDup ((groupBy key rows).*1).
Proof.
  unfold groupBy. rewrite <- list_fmap_compose.
  rewrite (list_fmap_ext _ id (remove_dups (key <$> rows))) by done.
  rewrite list_fmap_id. apply NoDup_remove_dups.
Qed.

(** X16: [userTotalFriendCount] has exactly one row for each user who has an
    accepted edge, holding the number of accepted edges that leave that
    user, and no row (rather than a row with 0) for a user who has none. *)
Theorem userTotalFriendCount_rows db :
  NoDup ((userTotalFriendCount db).*1)
  ∧ ∀ X n,
      (X, n) ∈ userTotalFriendCount db
      ↔ n = total_friend_count_spec (friendships db) X ∧ 0 < n.
Proof.
  unfold userTotalFriendCount. split.
  - rewrite <- list_fmap_compose.
    rewrite (list_fmap_ext _ fst (groupBy Friendships.userId
      (filter (λ r, Friendships.status r = accepted) (friendships db))))
      by done.
    apply groupBy_keys_NoDup.
  - intros X n.
    assert (∀ k, filter (λ r, Friendships.userId r = k)
                   (filter (λ r, Friendships.status r = accepted) (friendships db))
                 = filter (accepted_of k) (friendships db)) as Hfil.
    { intros k. rewrite list_filter_filter. apply list_filter_iff.
      intros r. unfold accepted_of. tauto. }
    rewrite list_elem_of_fmap. unfold total_friend_count_spec. split.
    + intros ([k g] & [= -> ->] & Hg). simpl.
      apply elem_of_groupBy in Hg as [-> Hne]. rewrite Hfil in *.
      split; [done|]. unfold count.
      destruct (filter (accepted_of k) (friendships db)); [done|]. simpl. lia.
    + intros [-> Hpos].
      exists (X, filter (accepted_of X) (friendships db)). split; [done|].
      apply elem_of_groupBy. rewrite Hfil. split; [done|].
      intros Hnil. rewrite Hnil in Hpos. unfold count in Hpos. simpl in Hpos. lia.
Qed.

Lemma mutualFriendCountSubquery_rows (tbl : list Friendships.row) A B :
  mutualFriendCountSubquery tbl A B
  = match mutualFriendRows tbl A B with
    | [] => []
    | rows => [count rows]
    end.
Proof.
  unfold mutualFriendCountSubquery.
  destruct (mutualFriendRows tbl A B) as [|p rows] eqn:Hrows; [done|].
  rewrite (groupBy_constant _ A); [done| |done].
  intros q Hq. rewrite <- Hrows in Hq. unfold mutualFriendRows in Hq.
  apply list_elem_of_filter in Hq. tauto.
Qed.

(** X18: in a table with one edge per ordered pair, the mutual friend count
    subquery gives the same rows for the caller and the friend as for the
    friend and the caller. *)
Theorem mutualFriendCountSubquery_symmetric (tbl : list Friendships.row) A B :
  unique_pairs tbl →
  mutualFriendCountSubquery tbl A B = mutualFriendCountSubquery tbl B A.
Proof.
  intros Hu. rewrite !mutualFriendCountSubquery_rows.
  assert (count (mutualFriendRows tbl A B) = count (mutualFriendRows tbl B A))
    as Hcount.
  { rewrite !mutualFriendRows_count by done. unfold mutual_friend_count_spec.
    by rewrite (comm_L (∩)). }
  destruct (mutualFriendRows tbl A B), (mutualFriendRows tbl B A);
    unfold count in *; simpl in *; try done; try lia.
  by rewrite Hcount.
Qed.

Lemma mutualFriendCountSubquery_symmetric_witness :
  unique_pairs (friendships db_mutual)
  ∧ mutualFriendCountSubquery (friendships db_mutual) 1 2
    = mutualFriendCountSubquery (friendships db_mutual) 2 1.
Proof.
  assert (unique_pairs (friendships db_mutual)) as Hu.
  { unfold unique_pairs. by_evaluation. }
  split; [exact Hu|]. exact (mutualFriendCountSubquery_symmetric _ 1 2 Hu).
Defined.

Lemma mutualFriendCountSubquery_value_witness :
  unique_pairs (friendships db_mutual)
  ∧ scalar_subquery (mutualFriendCountSubquery (friendships db_mutual) 1 2)
    = JsNumber 2.
Proof.
  assert (unique_pairs (friendships db_mutual)) as Hu.
  { unfold unique_pairs. by_evaluation. }
  split; [exact Hu|].
  rewrite (mutualFriendCountSubquery_value (friendships db_mutual) 1 2 Hu).
  by vm_compute.
Defined.

(** ** send over an accepted edge *)

(** X5: [send] overwrites the status of the edge whatever it was, so in a store
    with one edge per ordered pair every successful [send], also one over an
    accepted edge, leaves the caller without an accepted edge to the target:
    [getById] by the caller for the target then fails with a not-found
    error. *)
Theorem send_resets_an_accepted_edge db caller target :
  user_exists db target →
  unique_pairs (friendships db) →
  ∃ db',
    send caller target db = (inr {| success := true |}, db')
    ∧ ¬ has_edge (friendships db') caller target accepted
    ∧ getById caller target db' = (inl (TRPCError NOT_FOUND), db').
Proof.
  intros Hex Hu.
  destruct (send_spec db caller target Hex Hu)
    as (db' & Hsend & _ & _ & (r & Hf & Hs) & _).
  exists db'. split; [done|].
  assert (¬ has_edge (friendships db') caller target accepted) as Hno.
  { intros (r' & Hin & He & Hs').
    by rewrite (only_edge_status _ _ _ _ _ Hf Hs r' Hin He) in Hs'. }
  split; [done|].
  unfold getById, mbind, Proc_bind, query. by rewrite getById_rows_nil.
Qed.

Lemma send_resets_an_accepted_edge_witness :
  user_exists db_friends 2
  ∧ unique_pairs (friendships db_friends)
  ∧ has_edge (friendships db_friends) 1 2 accepted
  ∧ ∃ db',
      send 1 2 db_friends = (inr {| success := true |}, db')
      ∧ ¬ has_edge (friendships db') 1 2 accepted
      ∧ getById 1 2 db' = (inl (TRPCError NOT_FOUND), db').
Proof.
  assert (user_exists db_friends 2) as Hex
    by (exists bob; split; [right; left|done]).
  assert (unique_pairs (friendships db_friends)) as Hu.
  { unfold unique_pairs. by_evaluation. }
  do 2 (split; [done|]).
  split; [exists (Friendships.mk 1 1 2 accepted); split; [left|done]|].
  exact (send_resets_an_accepted_edge db_friends 1 2 Hex Hu).
Defined.
